(** * Availability engine of the meeting scheduler (server.js)

    A shallow embedding of the slot computation of the scheduler's server:
    [roundDown30], [roundUp30], [calculateAdjacentSlots], [calculateAllSlots],
    [isEasternTimeDST] and the request handlers that call them.

    A JavaScript [Date] is represented by its time value, the number of
    milliseconds since 1970-01-01T00:00:00Z, as a [Z].  The [Date] methods the
    server calls are written out from the ECMAScript definitions (section
    "Date Objects"): [Day], [TimeWithinDay], [MakeTime], [MakeDay], ...
    Two things are outside the model: the invalid date ([NaN]) and the server's
    zone changing its offset during one computation.  The server's local zone
    is a fixed offset [LocalTZA] (milliseconds east of UTC), a parameter of
    every local-time method. *)

From Stdlib Require Import ZArith List Bool Lia String Permutation Sorted.
Import ListNotations.
Local Open Scope Z_scope.

(* ================================================================== *)
(** * ECMAScript time arithmetic *)
(* ================================================================== *)

Module JSDate.

Definition msPerSecond : Z := 1000.
Definition msPerMinute : Z := 60000.
Definition msPerHour : Z := 3600000.
Definition msPerDay : Z := 86400000.

Definition Day (t : Z) : Z := t / msPerDay.
Definition TimeWithinDay (t : Z) : Z := t mod msPerDay.

Definition DaysInYear (y : Z) : Z :=
  if negb (y mod 4 =? 0) then 365
  else if negb (y mod 100 =? 0) then 366
  else if negb (y mod 400 =? 0) then 365
  else 366.

Definition DayFromYear (y : Z) : Z :=
  365 * (y - 1970) + (y - 1969) / 4 - (y - 1901) / 100 + (y - 1601) / 400.

Definition TimeFromYear (y : Z) : Z := msPerDay * DayFromYear y.

(** ECMAScript defines [YearFromTime t] as the largest [y] with
    [TimeFromYear y <= t].  The computation below finds it inside the
    400-year cycle that starts in 2000 (day 10957): [r / 366] never exceeds
    the answer and is at most two years short of it.  Lemma
    [YearFromDay_spec] proves the defining property. *)
Definition YearFromDay (d : Z) : Z :=
  let q := (d - 10957) / 146097 in
  let r := (d - 10957) mod 146097 in
  let k0 := r / 366 in
  let k :=
    if DayFromYear (2000 + (k0 + 2)) - 10957 <=? r then k0 + 2
    else if DayFromYear (2000 + (k0 + 1)) - 10957 <=? r then k0 + 1
    else k0 in
  2000 + 400 * q + k.

Definition YearFromTime (t : Z) : Z := YearFromDay (Day t).

Definition InLeapYear (t : Z) : Z :=
  if DaysInYear (YearFromTime t) =? 366 then 1 else 0.

Definition DayWithinYear (t : Z) : Z := Day t - DayFromYear (YearFromTime t).

Definition MonthFromTime (t : Z) : Z :=
  let d := DayWithinYear t in
  let l := InLeapYear t in
  if d <? 31 then 0
  else if d <? 59 + l then 1
  else if d <? 90 + l then 2
  else if d <? 120 + l then 3
  else if d <? 151 + l then 4
  else if d <? 181 + l then 5
  else if d <? 212 + l then 6
  else if d <? 243 + l then 7
  else if d <? 273 + l then 8
  else if d <? 304 + l then 9
  else if d <? 334 + l then 10
  else 11.

Definition DateFromTime (t : Z) : Z :=
  let d := DayWithinYear t in
  let l := InLeapYear t in
  match MonthFromTime t with
  | 0 => d + 1
  | 1 => d - 30
  | 2 => d - 58 - l
  | 3 => d - 89 - l
  | 4 => d - 119 - l
  | 5 => d - 150 - l
  | 6 => d - 180 - l
  | 7 => d - 211 - l
  | 8 => d - 242 - l
  | 9 => d - 272 - l
  | 10 => d - 303 - l
  | _ => d - 333 - l
  end.

Definition WeekDay (t : Z) : Z := (Day t + 4) mod 7.

Definition HourFromTime (t : Z) : Z := (t / msPerHour) mod 24.
Definition MinFromTime (t : Z) : Z := (t / msPerMinute) mod 60.
Definition SecFromTime (t : Z) : Z := (t / msPerSecond) mod 60.
Definition msFromTime (t : Z) : Z := t mod msPerSecond.

Definition MakeTime (hour min sec ms : Z) : Z :=
  hour * msPerHour + min * msPerMinute + sec * msPerSecond + ms.

(** Days of the year that precede month [mn] (0 = January). *)
Definition DaysBeforeMonth (leap mn : Z) : Z :=
  match mn with
  | 0 => 0
  | 1 => 31
  | 2 => 59 + leap
  | 3 => 90 + leap
  | 4 => 120 + leap
  | 5 => 151 + leap
  | 6 => 181 + leap
  | 7 => 212 + leap
  | 8 => 243 + leap
  | 9 => 273 + leap
  | 10 => 304 + leap
  | _ => 334 + leap
  end.

(** [MakeDay]: the month may lie outside 0..11 and the date outside the
    month; both carry over, as in ECMAScript. *)
Definition MakeDay (year month date : Z) : Z :=
  let ym := year + month / 12 in
  let mn := month mod 12 in
  let leap := if DaysInYear ym =? 366 then 1 else 0 in
  DayFromYear ym + DaysBeforeMonth leap mn + date - 1.

Definition MakeDate (day time : Z) : Z := day * msPerDay + time.

(** [Date.UTC(year, month, date, hours, minutes, seconds)].  A year from 0 to
    99 stands for 1900 + year. *)
Definition DateUTC (year month date hours minutes seconds : Z) : Z :=
  let yr := if (0 <=? year) && (year <=? 99) then 1900 + year else year in
  MakeDate (MakeDay yr month date) (MakeTime hours minutes seconds 0).

Definition getTime (t : Z) : Z := t.
Definition getUTCFullYear (t : Z) : Z := YearFromTime t.
Definition getUTCDate (t : Z) : Z := DateFromTime t.
Definition getUTCDay (t : Z) : Z := WeekDay t.
Definition getUTCHours (t : Z) : Z := HourFromTime t.
Definition getUTCMinutes (t : Z) : Z := MinFromTime t.

Definition setUTCDate (t dt : Z) : Z :=
  MakeDate (MakeDay (YearFromTime t) (MonthFromTime t) dt) (TimeWithinDay t).

(** ** Local-time methods, for a zone at a fixed offset from UTC *)
Section LocalZone.

Variable LocalTZA : Z.

Definition LocalTime (t : Z) : Z := t + LocalTZA.
Definition UTC (t : Z) : Z := t - LocalTZA.

Definition getHours (t : Z) : Z := HourFromTime (LocalTime t).
Definition getMinutes (t : Z) : Z := MinFromTime (LocalTime t).
Definition getDay (t : Z) : Z := WeekDay (LocalTime t).
Definition getDate (t : Z) : Z := DateFromTime (LocalTime t).

(** [setSeconds(sec, ms)] *)
Definition setSeconds (t sec ms : Z) : Z :=
  let lt := LocalTime t in
  UTC (MakeDate (Day lt) (MakeTime (HourFromTime lt) (MinFromTime lt) sec ms)).

(** [setMinutes(min)] *)
Definition setMinutes (t min : Z) : Z :=
  let lt := LocalTime t in
  UTC (MakeDate (Day lt)
         (MakeTime (HourFromTime lt) min (SecFromTime lt) (msFromTime lt))).

(** [setHours(hour)] *)
Definition setHours (t hour : Z) : Z :=
  let lt := LocalTime t in
  UTC (MakeDate (Day lt)
         (MakeTime hour (MinFromTime lt) (SecFromTime lt) (msFromTime lt))).

(** [new Date(year, month, date)]: local midnight. *)
Definition newDateLocal (year month date : Z) : Z :=
  let yr := if (0 <=? year) && (year <=? 99) then 1900 + year else year in
  UTC (MakeDate (MakeDay yr month date) 0).

(** [getFullYear()], [getMonth()] and [setDate(date)], on the local time. *)
Definition getFullYear (t : Z) : Z := YearFromTime (LocalTime t).
Definition getMonth (t : Z) : Z := MonthFromTime (LocalTime t).

Definition setDate (t dt : Z) : Z :=
  let lt := LocalTime t in
  UTC (MakeDate (MakeDay (YearFromTime lt) (MonthFromTime lt) dt)
         (TimeWithinDay lt)).

End LocalZone.

End JSDate.

Import JSDate.

(* ================================================================== *)
(** * Data *)
(* ================================================================== *)

(** A date as written in a [YYYY-MM-DD] string: the month counts from 1. *)
Record CalendarDate : Type := mkDate {
  cd_year : Z;
  cd_month : Z;
  cd_day : Z
}.

(** [new Date(dateStr + 'THH:00:00Z')] for the date string of [c]. *)
Definition parseDateUTC (c : CalendarDate) (hours : Z) : Z :=
  MakeDate (MakeDay (cd_year c) (cd_month c - 1) (cd_day c))
    (MakeTime hours 0 0 0).

(** [d.toISOString().split('T')[0]] *)
Definition dateStrOf (t : Z) : CalendarDate :=
  mkDate (YearFromTime t) (MonthFromTime t + 1) (DateFromTime t).

(** An event of the calendar, raw or processed, with the fields the server
    reads: [status], [transparency], [start.date], [start.dateTime],
    [end.date], [end.dateTime] and [isSyntheticAllDay].  A field that is
    absent is [None]; a [dateTime] string is held as the instant it parses
    to.  [summary] only feeds the log and is left out. *)
Record CalEvent : Type := mkEvent {
  status : string;
  transparency : option string;
  start_date : option CalendarDate;
  start_dateTime : option Z;
  end_date : option CalendarDate;
  end_dateTime : option Z;
  isSyntheticAllDay : bool
}.

(** A candidate slot with the two flags the engine sets on it. *)
Record Slot : Type := mkSlot {
  slot_start : Z;
  slot_end : Z;
  isOverlapping : bool;
  isAdjacent : bool
}.

(** What the engine returns for a slot: [{start, end}].  The server prints
    both with [toISOString]; the instants stand for the strings. *)
Record SlotRange : Type := mkRange {
  range_start : Z;
  range_end : Z
}.

(* ================================================================== *)
(** * Slot engine *)
(* ================================================================== *)

Section Engine.

Variable LocalTZA : Z.

(** [roundDown30(date)] *)
Definition roundDown30 (date : Z) : Z :=
  let rounded := setSeconds LocalTZA date 0 0 in
  let minutes := getMinutes LocalTZA rounded in
  if minutes >=? 30 then setMinutes LocalTZA rounded 30
  else setMinutes LocalTZA rounded 0.

(** [roundUp30(date)] *)
Definition roundUp30 (date : Z) : Z :=
  let rounded := setSeconds LocalTZA date 0 0 in
  let minutes := getMinutes LocalTZA rounded in
  if minutes >? 30 then
    let rounded := setMinutes LocalTZA rounded 0 in
    setHours LocalTZA rounded (getHours LocalTZA rounded + 1)
  else if (minutes >? 0) && (minutes <=? 30) then
    setMinutes LocalTZA rounded 30
  else rounded.

(** The body of [while (current < endOfBusinessDay)], once per unit of
    fuel. *)
Fixpoint tileLoop (fuel : nat) (current endOfBusinessDay : Z) : list Slot :=
  match fuel with
  | O => []
  | S fuel' =>
      if current <? endOfBusinessDay then
        let slotStart := current in
        let slotEnd :=
          setMinutes LocalTZA current (getMinutes LocalTZA current + 30) in
        let next :=
          setMinutes LocalTZA current (getMinutes LocalTZA current + 30) in
        (if slotEnd <=? endOfBusinessDay
         then [mkSlot slotStart slotEnd false false] else [])
        ++ tileLoop fuel' next endOfBusinessDay
      else []
  end.

(** Fuel that lets the loop run to its exit: each turn moves [current]
    30 minutes forward (lemma [tileLoop_more_fuel]). *)
Definition tileFuel (startOfBusinessDay endOfBusinessDay : Z) : nat :=
  Z.to_nat ((endOfBusinessDay - startOfBusinessDay) / (30 * msPerMinute) + 1).

(** "Build all potential 30-min slots within business hours": the loop that
    opens both [calculateAdjacentSlots] and [calculateAllSlots]. *)
Definition buildSlots (startOfBusinessDay endOfBusinessDay : Z) : list Slot :=
  tileLoop (tileFuel startOfBusinessDay endOfBusinessDay)
    startOfBusinessDay endOfBusinessDay.

(** The body of [for (const slot of slots)] in [calculateAdjacentSlots]. *)
Definition markSlot (eventStart eventEnd : Z) (isAllDayBlock : bool)
    (effectiveStartRoundedDown effectiveEndRoundedUp : Z) (slot : Slot) : Slot :=
  if isOverlapping slot then slot
  else if (slot_start slot <? eventEnd) && (slot_end slot >? eventStart) then
    mkSlot (slot_start slot) (slot_end slot) true (isAdjacent slot)
  else if negb isAllDayBlock then
    let endsBeforeEventStarts :=
      getTime (slot_end slot) =? getTime effectiveStartRoundedDown in
    let startsAfterEventEnds :=
      getTime (slot_start slot) =? getTime effectiveEndRoundedUp in
    if endsBeforeEventStarts || startsAfterEventEnds then
      if negb ((slot_start slot <? eventEnd) && (slot_end slot >? eventStart))
      then mkSlot (slot_start slot) (slot_end slot) (isOverlapping slot) true
      else slot
    else slot
  else slot.

(** The body of [for (const event of processedEvents)]: an event that lacks
    a [dateTime] is skipped. *)
Definition markSlots (event : CalEvent) (slots : list Slot) : list Slot :=
  match start_dateTime event, end_dateTime event with
  | Some eventStart, Some eventEnd =>
      let isAllDayBlock := isSyntheticAllDay event in
      let effectiveStartRoundedDown := roundDown30 eventStart in
      let effectiveEndRoundedUp := roundUp30 eventEnd in
      map (markSlot eventStart eventEnd isAllDayBlock
             effectiveStartRoundedDown effectiveEndRoundedUp) slots
  | _, _ => slots
  end.

Definition classifySlots (processedEvents : list CalEvent) (slots : list Slot)
    : list Slot :=
  fold_left (fun slots event => markSlots event slots) processedEvents slots.

Definition slotRange (slot : Slot) : SlotRange :=
  mkRange (slot_start slot) (slot_end slot).

(** [calculateAdjacentSlots(processedEvents, startOfBusinessDay,
    endOfBusinessDay)] *)
Definition calculateAdjacentSlots (processedEvents : list CalEvent)
    (startOfBusinessDay endOfBusinessDay : Z) : list SlotRange :=
  let slots := buildSlots startOfBusinessDay endOfBusinessDay in
  if Z.of_nat (List.length processedEvents) =? 0 then []
  else
    let slots := classifySlots processedEvents slots in
    map slotRange
      (filter (fun slot => negb (isOverlapping slot) && isAdjacent slot) slots).

(** The body of [for (const slot of slots)] in [calculateAllSlots]. *)
Definition markOverlap (eventStart eventEnd : Z) (slot : Slot) : Slot :=
  if isOverlapping slot then slot
  else if (slot_start slot <? eventEnd) && (slot_end slot >? eventStart) then
    mkSlot (slot_start slot) (slot_end slot) true (isAdjacent slot)
  else slot.

Definition markOverlaps (event : CalEvent) (slots : list Slot) : list Slot :=
  match start_dateTime event, end_dateTime event with
  | Some eventStart, Some eventEnd => map (markOverlap eventStart eventEnd) slots
  | _, _ => slots
  end.

(** [calculateAllSlots(processedEvents, startOfBusinessDay,
    endOfBusinessDay)].  Its slots carry no [isAdjacent] field; here the
    field stays [false]. *)
Definition calculateAllSlots (processedEvents : list CalEvent)
    (startOfBusinessDay endOfBusinessDay : Z) : list SlotRange :=
  let slots := buildSlots startOfBusinessDay endOfBusinessDay in
  let slots :=
    fold_left (fun slots event => markOverlaps event slots)
      processedEvents slots in
  map slotRange (filter (fun slot => negb (isOverlapping slot)) slots).

End Engine.

(* ================================================================== *)
(** * Business window *)
(* ================================================================== *)

(** [isEasternTimeDST(dateStr)] *)
Definition isEasternTimeDST (dateStr : CalendarDate) : bool :=
  let date := parseDateUTC dateStr 12 in
  let year := getUTCFullYear date in
  let marchSecondSunday := DateUTC year 2 1 0 0 0 in
  let marchSecondSunday :=
    setUTCDate marchSecondSunday
      (getUTCDate marchSecondSunday
       + Z.rem (7 - getUTCDay marchSecondSunday) 7 + 7) in
  let novemberFirstSunday := DateUTC year 10 1 0 0 0 in
  let novemberFirstSunday :=
    setUTCDate novemberFirstSunday
      (getUTCDate novemberFirstSunday
       + Z.rem (7 - getUTCDay novemberFirstSunday) 7) in
  (date >=? marchSecondSunday) && (date <? novemberFirstSunday).

(** The lines of [/api/available-slots] that build the window of a date:
    [selectedDateUTC], [utcOffset], [queryStart], [queryEnd], [slotsStart]
    and [slotsEnd].  [year], [month] and [day] are the [parseInt] of the
    three parts of the date string, the month made 0-based. *)
Definition selectedDateUTC (date : CalendarDate) : Z :=
  DateUTC (cd_year date) (cd_month date - 1) (cd_day date) 0 0 0.

Definition utcOffset (date : CalendarDate) : Z :=
  let isDST := isEasternTimeDST date in
  if isDST then 4 else 5.

Definition queryStart (date : CalendarDate) : Z :=
  DateUTC (cd_year date) (cd_month date - 1) (cd_day date) (utcOffset date) 0 0.

Definition queryEnd (date : CalendarDate) : Z :=
  DateUTC (cd_year date) (cd_month date - 1) (cd_day date + 1)
    (utcOffset date) 0 0.

Definition slotsStart (date : CalendarDate) : Z :=
  DateUTC (cd_year date) (cd_month date - 1) (cd_day date)
    (9 + utcOffset date) 0 0.

Definition slotsEnd (date : CalendarDate) : Z :=
  DateUTC (cd_year date) (cd_month date - 1) (cd_day date)
    (17 + utcOffset date) 0 0.

(* ================================================================== *)
(** * Event normalisation *)
(* ================================================================== *)

(** The filter on [response.data.items]: neither cancelled nor
    transparent. *)
Definition isBusy (event : CalEvent) : bool :=
  negb (String.eqb (status event) "cancelled"%string)
  && match transparency event with
     | None => true
     | Some t => negb (String.eqb t "transparent"%string)
     end.

(** The synthetic event pushed for an all-day event that blocks the date. *)
Definition syntheticAllDay (slotsStart slotsEnd : Z) : CalEvent :=
  mkEvent ""%string None None (Some slotsStart) None (Some slotsEnd) true.

(** The body of [rawEvents.forEach] in [/api/available-slots]: what one raw
    event adds to [processedEvents].  A comparison with the date of an absent
    field is false, as a comparison with an invalid [Date] is. *)
Definition processEvent (selectedDateUTC slotsStart slotsEnd : Z)
    (event : CalEvent) : list CalEvent :=
  match start_date event with
  | Some startDate =>
      let eventStartDate := parseDateUTC startDate 0 in
      match end_date event with
      | Some endDate =>
          let eventEndDateExclusive := parseDateUTC endDate 0 in
          if (selectedDateUTC >=? eventStartDate)
             && (selectedDateUTC <? eventEndDateExclusive)
          then [syntheticAllDay slotsStart slotsEnd]
          else []
      | None => []
      end
  | None =>
      match start_dateTime event with
      | Some eventStart =>
          match end_dateTime event with
          | Some eventEnd =>
              if (eventStart <? slotsEnd) && (eventEnd >? slotsStart)
              then [event] else []
          | None => []
          end
      | None => []
      end
  end.

Definition processEvents (selectedDateUTC slotsStart slotsEnd : Z)
    (rawEvents : list CalEvent) : list CalEvent :=
  flat_map (processEvent selectedDateUTC slotsStart slotsEnd) rawEvents.

(* ================================================================== *)
(** * Request handlers *)
(* ================================================================== *)

(** The event handed to [calendar.events.insert]. *)
Record NewEvent : Type := mkNewEvent {
  new_start : Z;
  new_end : Z;
  new_name : string;
  new_attendee : string
}.

(** What a handler sends back. *)
Inductive Response (A : Type) : Type :=
| Json (body : A)
| Status (code : Z) (message : string).

Arguments Json {A} body.
Arguments Status {A} code message.

(** A handler is a tree of its calls to the calendar: it answers, or lists
    the events between two instants and goes on with the items, or inserts an
    event and goes on with the link of the created event.  Token refresh and
    the search for the calendar id are taken to succeed. *)
Inductive Api (A : Type) : Type :=
| Respond (r : A)
| ListEvents (timeMin timeMax : Z) (k : list CalEvent -> Api A)
| InsertEvent (event : NewEvent) (k : string -> Api A).

Arguments Respond {A} r.
Arguments ListEvents {A} timeMin timeMax k.
Arguments InsertEvent {A} event k.

(** Runs a handler against a calendar that answers each listing with
    [calendar timeMin timeMax] and each insertion with the link ["ok"]. *)
Fixpoint runApi {A : Type} (calendar : Z -> Z -> list CalEvent) (p : Api A) : A :=
  match p with
  | Respond r => r
  | ListEvents timeMin timeMax k => runApi calendar (k (calendar timeMin timeMax))
  | InsertEvent _ k => runApi calendar (k "ok"%string)
  end.

(** The events a handler inserts, in order. *)
Fixpoint inserted {A : Type} (calendar : Z -> Z -> list CalEvent) (p : Api A)
    : list NewEvent :=
  match p with
  | Respond _ => []
  | ListEvents timeMin timeMax k => inserted calendar (k (calendar timeMin timeMax))
  | InsertEvent event k => event :: inserted calendar (k "ok"%string)
  end.

(** [GET /api/available-slots] *)
Definition availableSlots (LocalTZA : Z) (date : option CalendarDate)
    : Api (Response (list SlotRange)) :=
  match date with
  | None => Respond (Status 400 "Date parameter is required"%string)
  | Some date =>
      let dayOfWeek := getUTCDay (selectedDateUTC date) in
      if (dayOfWeek =? 0) || (dayOfWeek =? 6) then Respond (Json [])
      else
        ListEvents (queryStart date) (queryEnd date) (fun items =>
          let rawEvents := filter isBusy items in
          let processedEvents :=
            processEvents (selectedDateUTC date) (slotsStart date)
              (slotsEnd date) rawEvents in
          let availableSlots :=
            calculateAdjacentSlots LocalTZA processedEvents
              (slotsStart date) (slotsEnd date) in
          Respond (Json availableSlots))
  end.

(** One turn of [for (let day = 1; day <= daysInMonth; day++)] in
    [/api/month-availability]: the entry written to [availability]. *)
Definition monthDay (LocalTZA yearNum monthNum : Z) (events : list CalEvent)
    (day : Z) : CalendarDate * bool :=
  let dateStr := dateStrOf (DateUTC yearNum monthNum day 0 0 0) in
  let currentDate := DateUTC yearNum monthNum day 0 0 0 in
  let dayOfWeek := getDay LocalTZA currentDate in
  if (dayOfWeek =? 0) || (dayOfWeek =? 6) then (dateStr, false)
  else
    let queryStart := DateUTC yearNum monthNum day 13 0 0 in
    let queryEnd := DateUTC yearNum monthNum day 22 0 0 in
    let dayEvents :=
      filter (fun event =>
        match start_dateTime event, end_dateTime event with
        | Some eventStart, Some eventEnd =>
            ((eventStart >=? queryStart) && (eventStart <? queryEnd))
            || ((eventEnd >? queryStart) && (eventEnd <=? queryEnd))
            || ((eventStart <=? queryStart) && (eventEnd >=? queryEnd))
        | _, _ => false
        end) events in
    let slotsStart := DateUTC yearNum monthNum day 14 0 0 in
    let slotsEnd := DateUTC yearNum monthNum day 22 0 0 in
    let availableSlots :=
      calculateAdjacentSlots LocalTZA dayEvents slotsStart slotsEnd in
    (dateStr, Z.of_nat (List.length availableSlots) >? 0).

(** [GET /api/month-availability]: the map from date string to boolean, as
    the list of its entries in the order they are written. *)
Definition monthAvailability (LocalTZA : Z) (year month : option Z)
    : Api (Response (list (CalendarDate * bool))) :=
  match year, month with
  | Some yearNum, Some month =>
      let monthNum := month - 1 in
      let startOfMonth := DateUTC yearNum monthNum 1 0 0 0 in
      let endOfMonth := DateUTC yearNum (monthNum + 1) 0 23 59 59 in
      ListEvents startOfMonth endOfMonth (fun items =>
        let events := filter isBusy items in
        let daysInMonth :=
          getDate LocalTZA (newDateLocal LocalTZA yearNum (monthNum + 1) 0) in
        Respond (Json
          (map (fun day => monthDay LocalTZA yearNum monthNum events (Z.of_nat day))
               (seq 1 (Z.to_nat daysInMonth)))))
  | _, _ => Respond (Status 400 "Year and month parameters are required"%string)
  end.

(** The body of [POST /api/book]; a field that is absent or empty is
    [None] or the empty string. *)
Record BookRequest : Type := mkBookRequest {
  startTime : option Z;
  endTime : option Z;
  name : string;
  email : string
}.

Definition book (LocalTZA : Z) (body : BookRequest) : Api (Response string) :=
  match startTime body, endTime body with
  | Some startDate, Some endDate =>
      if String.eqb (name body) ""%string || String.eqb (email body) ""%string then
        Respond (Status 400 "Missing required parameters"%string)
      else
        let dayOfWeek := getDay LocalTZA startDate in
        if (dayOfWeek =? 0) || (dayOfWeek =? 6) then
          Respond (Status 400 "Appointments cannot be booked on weekends"%string)
        else
          let startHourUTC := getUTCHours startDate in
          let endHourUTC := getUTCHours endDate in
          let startMinUTC := getUTCMinutes startDate in
          let endMinUTC := getUTCMinutes endDate in
          if (startHourUTC <? 14)
             || ((startHourUTC =? 22) && (startMinUTC >? 0))
             || (startHourUTC >? 22)
             || (endHourUTC <? 14) || (endHourUTC >? 22)
          then
            Respond (Status 400
              "Appointments must be between 9AM and 5PM Eastern Time"%string)
          else
            InsertEvent (mkNewEvent startDate endDate (name body) (email body))
              (fun data => Respond (Json data))
  | _, _ => Respond (Status 400 "Missing required parameters"%string)
  end.

(** An entry of the map of [GET /api/date-range-availability]:
    [{adjacent, all, isWeekend}]. *)
Record RangeEntry : Type := mkRangeEntry {
  adjacent : list SlotRange;
  all : list SlotRange;
  isWeekend : bool
}.

(** [while (currentDate <= end)]: the days of the range, one turn per unit
    of fuel. *)
Fixpoint daysLoop (LocalTZA : Z) (fuel : nat) (currentDate endDate : Z)
    : list Z :=
  match fuel with
  | O => []
  | S fuel' =>
      if currentDate <=? endDate then
        currentDate
        :: daysLoop LocalTZA fuel'
             (setDate LocalTZA currentDate (getDate LocalTZA currentDate + 1))
             endDate
      else []
  end.

(** Fuel that lets the loop run to its exit: each turn moves [currentDate]
    one day forward (lemma [daysLoop_more_fuel]). *)
Definition daysFuel (startDate endDate : Z) : nat :=
  Z.to_nat ((endDate - startDate) / msPerDay + 1).

Definition rangeDays (LocalTZA startDate endDate : Z) : list Z :=
  daysLoop LocalTZA (daysFuel startDate endDate) startDate endDate.

(** [for (const day of days)]: one listing of the calendar per day that is
    not a weekend; [availability] holds the entries written so far. *)
Fixpoint rangeLoop (LocalTZA : Z) (days : list Z)
    (availability : list (CalendarDate * RangeEntry))
    : Api (Response (list (CalendarDate * RangeEntry))) :=
  match days with
  | [] => Respond (Json availability)
  | day :: days' =>
      let dateStr := dateStrOf day in
      let dayOfWeek := getDay LocalTZA day in
      if (dayOfWeek =? 0) || (dayOfWeek =? 6) then
        rangeLoop LocalTZA days'
          (availability ++ [(dateStr, mkRangeEntry [] [] true)])
      else
        let isDST := isEasternTimeDST dateStr in
        let utcOffset := if isDST then 4 else 5 in
        let queryStart :=
          DateUTC (getFullYear LocalTZA day) (getMonth LocalTZA day)
            (getDate LocalTZA day) (8 + utcOffset) 0 0 in
        let queryEnd :=
          DateUTC (getFullYear LocalTZA day) (getMonth LocalTZA day)
            (getDate LocalTZA day) (17 + utcOffset) 0 0 in
        let slotsStart :=
          DateUTC (getFullYear LocalTZA day) (getMonth LocalTZA day)
            (getDate LocalTZA day) (9 + utcOffset) 0 0 in
        let slotsEnd :=
          DateUTC (getFullYear LocalTZA day) (getMonth LocalTZA day)
            (getDate LocalTZA day) (17 + utcOffset) 0 0 in
        ListEvents queryStart queryEnd (fun items =>
          let rawEvents := filter isBusy items in
          let processedEvents :=
            processEvents day slotsStart slotsEnd rawEvents in
          let adjacentSlots :=
            calculateAdjacentSlots LocalTZA processedEvents
              slotsStart slotsEnd in
          let allSlots :=
            calculateAllSlots LocalTZA processedEvents slotsStart slotsEnd in
          rangeLoop LocalTZA days'
            (availability
             ++ [(dateStr, mkRangeEntry adjacentSlots allSlots false)]))
  end.

(** [GET /api/date-range-availability]; the two date strings are held as the
    instants they parse to. *)
Definition dateRangeAvailability (LocalTZA : Z) (startDate endDate : option Z)
    : Api (Response (list (CalendarDate * RangeEntry))) :=
  match startDate, endDate with
  | Some startD, Some endD =>
      if startD >? endD then
        Respond (Status 400 "Start date must be before end date"%string)
      else rangeLoop LocalTZA (rangeDays LocalTZA startD endD) []
  | _, _ =>
      Respond (Status 400 "Start and end date parameters are required"%string)
  end.

(** The listings a handler asks of the calendar, in order. *)
Fixpoint listings {A : Type} (calendar : Z -> Z -> list CalEvent) (p : Api A)
    : list (Z * Z) :=
  match p with
  | Respond _ => []
  | ListEvents timeMin timeMax k =>
      (timeMin, timeMax) :: listings calendar (k (calendar timeMin timeMax))
  | InsertEvent _ k => listings calendar (k "ok"%string)
  end.

(* ================================================================== *)
(** * Vocabulary of the specification *)
(* ================================================================== *)

Definition DaysInMonth (y m : Z) : Z :=
  match m with
  | 2 => if DaysInYear y =? 366 then 29 else 28
  | 4 | 6 | 9 | 11 => 30
  | _ => 31
  end.

(** The dates a request can name and [Date.UTC] reads as written: a day of
    the Gregorian calendar with a four-digit year from 0100 on.  ([Date.UTC]
    takes a year below 100 for a year of the twentieth century.) *)
Definition valid_date (c : CalendarDate) : Prop :=
  100 <= cd_year c <= 9999
  /\ 1 <= cd_month c <= 12
  /\ 1 <= cd_day c <= DaysInMonth (cd_year c) (cd_month c).

(** A day of the Gregorian calendar, whatever its year; for the dates of
    all-day events, which are parsed from the string itself. *)
Definition calendar_day (c : CalendarDate) : Prop :=
  1 <= cd_month c <= 12
  /\ 1 <= cd_day c <= DaysInMonth (cd_year c) (cd_month c).

(** Order of dates: by year, then month, then day. *)
Definition date_lt (a b : CalendarDate) : Prop :=
  cd_year a < cd_year b
  \/ (cd_year a = cd_year b
      /\ (cd_month a < cd_month b
          \/ (cd_month a = cd_month b /\ cd_day a < cd_day b))).

Definition date_le (a b : CalendarDate) : Prop := date_lt a b \/ a = b.

(** Day of the week of a date, 0 for Sunday. *)
Definition weekday (c : CalendarDate) : Z := WeekDay (parseDateUTC c 0).

Definition secondSundayOfMarch (y s : Z) : Prop :=
  8 <= s <= 14 /\ weekday (mkDate y 3 s) = 0.

Definition firstSundayOfNovember (y s : Z) : Prop :=
  1 <= s <= 7 /\ weekday (mkDate y 11 s) = 0.

(** The instant at which the wall clock of a zone [offsetHours] hours behind
    UTC shows [hour]:00 on the date. *)
Definition wallClock (c : CalendarDate) (hour offsetHours : Z) : Z :=
  parseDateUTC c 0 + (hour + offsetHours) * msPerHour.

Definition overlap (s e eventStart eventEnd : Z) : Prop :=
  s < eventEnd /\ e > eventStart.

(** An event with both instants present. *)
Definition timed (event : CalEvent) (eventStart eventEnd : Z) : Prop :=
  start_dateTime event = Some eventStart /\ end_dateTime event = Some eventEnd.

Definition slotLength : Z := 30 * msPerMinute.

(** The [i]-th slot of the tiling that starts at [ws]. *)
Definition nthSlot (ws : Z) (i : nat) : Slot :=
  mkSlot (ws + Z.of_nat i * slotLength) (ws + (Z.of_nat i + 1) * slotLength)
    false false.

Definition tiling (ws we : Z) : list Slot :=
  map (nthSlot ws) (seq 0 (Z.to_nat ((we - ws) / slotLength))).

(** The overlap test of the engine, for a slot and an event. *)
Definition overlapsEvent (slot : Slot) (event : CalEvent) : bool :=
  match start_dateTime event, end_dateTime event with
  | Some eventStart, Some eventEnd =>
      (slot_start slot <? eventEnd) && (slot_end slot >? eventStart)
  | _, _ => false
  end.

(** The adjacency test of the engine, for a slot and an event. *)
Definition adjacentToEvent (LocalTZA : Z) (slot : Slot) (event : CalEvent)
    : bool :=
  match start_dateTime event, end_dateTime event with
  | Some eventStart, Some eventEnd =>
      negb (isSyntheticAllDay event)
      && ((slot_end slot =? roundDown30 LocalTZA eventStart)
          || (slot_start slot =? roundUp30 LocalTZA eventEnd))
  | _, _ => false
  end.

(** What one event does to one slot in [calculateAdjacentSlots]. *)
Definition markOne (LocalTZA : Z) (event : CalEvent) (slot : Slot) : Slot :=
  match start_dateTime event, end_dateTime event with
  | Some eventStart, Some eventEnd =>
      markSlot eventStart eventEnd (isSyntheticAllDay event)
        (roundDown30 LocalTZA eventStart) (roundUp30 LocalTZA eventEnd) slot
  | _, _ => slot
  end.

(** What one event does to one slot in [calculateAllSlots]. *)
Definition markOverlapOne (event : CalEvent) (slot : Slot) : Slot :=
  match start_dateTime event, end_dateTime event with
  | Some eventStart, Some eventEnd => markOverlap eventStart eventEnd slot
  | _, _ => slot
  end.

(** The rounding rule in the words of the specification, on the fields of a
    local time: seconds and milliseconds zeroed; minutes at or above 30
    become 30, else 0. *)
Definition spec_roundDown (t : Z) : Z :=
  MakeDate (Day t)
    (MakeTime (HourFromTime t) (if MinFromTime t >=? 30 then 30 else 0) 0 0).

(** Seconds and milliseconds zeroed; minutes above 30 roll to the next hour
    at minute 0; minutes in (0, 30] become 30; minute 0 stays. *)
Definition spec_roundUp (t : Z) : Z :=
  if MinFromTime t >? 30 then
    MakeDate (Day t) (MakeTime (HourFromTime t + 1) 0 0 0)
  else if (MinFromTime t >? 0) && (MinFromTime t <=? 30) then
    MakeDate (Day t) (MakeTime (HourFromTime t) 30 0 0)
  else
    MakeDate (Day t) (MakeTime (HourFromTime t) 0 0 0).

(** The filter that ends [calculateAdjacentSlots]. *)
Definition eligible (slot : Slot) : bool :=
  negb (isOverlapping slot) && isAdjacent slot.

(** The slots a day offers: those of the tiling that no event overlaps and
    that border some timed event. *)
Definition bookable (LocalTZA : Z) (events : list CalEvent) (slot : Slot)
    : bool :=
  negb (existsb (overlapsEvent slot) events)
  && existsb (adjacentToEvent LocalTZA slot) events.

(** An event the engine does not skip: both [dateTime]s are present. *)
Definition hasBothInstants (event : CalEvent) : bool :=
  match start_dateTime event, end_dateTime event with
  | Some _, Some _ => true
  | _, _ => false
  end.

(** The instants a day apart from [s] up to [e]. *)
Definition dayList (s e : Z) : list Z :=
  map (fun i => s + Z.of_nat i * msPerDay)
    (seq 0 (Z.to_nat ((e - s) / msPerDay + 1))).

(** The weekend test of the range request, on the weekday of the server's
    zone. *)
Definition localWeekend (LocalTZA day : Z) : bool :=
  (getDay LocalTZA day =? 0) || (getDay LocalTZA day =? 6).

(** What the range request promises of an entry: a weekend entry is empty,
    every adjacent slot is among the free ones, and a day has at most 16
    free slots. *)
Definition soundEntry (entry : RangeEntry) : Prop :=
  (isWeekend entry = false \/ (adjacent entry = [] /\ all entry = []))
  /\ incl (adjacent entry) (all entry)
  /\ (List.length (all entry) <= 16)%nat.

(** Slots of a result in increasing order, none running into the next. *)
Definition precedes (a b : SlotRange) : Prop :=
  range_start a < range_start b /\ range_end a <= range_start b.

(** What every returned list of a window must be: slots of 30 minutes, each
    a whole number of slot lengths after the start of the window and inside
    the window, in increasing order and none running into the next. *)
Definition wellTiled (ws we : Z) (result : list SlotRange) : Prop :=
  (forall r, In r result ->
     range_end r = range_start r + slotLength
     /\ (exists k : nat, range_start r = ws + Z.of_nat k * slotLength)
     /\ ws <= range_start r /\ range_end r <= we)
  /\ StronglySorted precedes result.

(* ================================================================== *)
(** * Time arithmetic: facts *)
(* ================================================================== *)

Ltac unfold_time :=
  unfold setSeconds, setMinutes, setHours, getMinutes, getHours, UTC,
    LocalTime, MakeDate, MakeTime, Day, TimeWithinDay, HourFromTime,
    MinFromTime, SecFromTime, msFromTime, msPerDay, msPerHour, msPerMinute,
    msPerSecond in *.

Lemma MakeDate_Day_TimeWithinDay t : MakeDate (Day t) (TimeWithinDay t) = t.
Proof. unfold_time. pose proof (Z.div_mod t 86400000). lia. Qed.

(** Replacing the minute field by [m] moves the instant by the difference
    of the minutes, whatever the zone offset. *)
Lemma setMinutes_shift tza t m :
  setMinutes tza t m = t + (m - getMinutes tza t) * msPerMinute.
Proof.
  unfold_time.
  set (l := t + tza).
  assert (Hl : t = l - tza) by (unfold l; lia).
  clearbody l.
  Z.to_euclidean_division_equations. lia.
Qed.

Lemma setMinutes_plus30 tza t :
  setMinutes tza t (getMinutes tza t + 30) = t + slotLength.
Proof. rewrite setMinutes_shift. unfold slotLength. lia. Qed.

(* ================================================================== *)
(** * Tiling *)
(* ================================================================== *)

Lemma slotLength_pos : 0 < slotLength.
Proof. reflexivity. Qed.

Lemma tileLoop_S tza f c e :
  tileLoop tza (S f) c e =
  if c <? e then
    (if c + slotLength <=? e
     then [mkSlot c (c + slotLength) false false] else [])
    ++ tileLoop tza f (c + slotLength) e
  else [].
Proof. simpl. rewrite setMinutes_plus30. reflexivity. Qed.

Lemma nthSlot_shift ws i : nthSlot (ws + slotLength) i = nthSlot ws (S i).
Proof. unfold nthSlot. f_equal; lia. Qed.

Lemma tiling_empty ws we : we < ws + slotLength -> tiling ws we = [].
Proof.
  intros H. unfold tiling.
  assert (Hq : (we - ws) / slotLength <= 0).
  { pose proof slotLength_pos.
    destruct (Z_le_gt_dec ((we - ws) / slotLength) 0) as [|Hgt]; [assumption|].
    pose proof (Z.mul_div_le (we - ws) slotLength ltac:(lia)). nia. }
  destruct (Z.to_nat ((we - ws) / slotLength)) eqn:E; [reflexivity | lia].
Qed.

Lemma tiling_cons ws we :
  ws + slotLength <= we ->
  tiling ws we =
  mkSlot ws (ws + slotLength) false false :: tiling (ws + slotLength) we.
Proof.
  intros H. unfold tiling.
  pose proof slotLength_pos as Hp.
  replace (we - ws) with ((we - (ws + slotLength)) + 1 * slotLength) by lia.
  rewrite Z.div_add by lia.
  assert (Hq : 0 <= (we - (ws + slotLength)) / slotLength)
    by (apply Z.div_pos; lia).
  rewrite Z2Nat.inj_add by lia.
  replace (Z.to_nat 1) with 1%nat by reflexivity.
  rewrite Nat.add_comm. simpl seq. simpl map.
  f_equal.
  - unfold nthSlot. f_equal; simpl; lia.
  - rewrite <- seq_shift, map_map.
    apply map_ext. intros i. symmetry. apply nthSlot_shift.
Qed.

(** With fuel for every turn, the loop yields the tiling. *)
Lemma tileLoop_tiling tza f : forall c e,
  e - c < Z.of_nat f * slotLength ->
  tileLoop tza f c e = tiling c e.
Proof.
  pose proof slotLength_pos as Hp.
  induction f as [|f IH]; intros c e Hf.
  - simpl. symmetry. apply tiling_empty. lia.
  - rewrite tileLoop_S.
    destruct (c <? e) eqn:Hce.
    + apply Z.ltb_lt in Hce.
      destruct (c + slotLength <=? e) eqn:Hle.
      * apply Z.leb_le in Hle.
        rewrite IH by (unfold slotLength, msPerMinute in *; lia).
        rewrite (tiling_cons c e) by lia. reflexivity.
      * apply Z.leb_gt in Hle.
        rewrite IH by (unfold slotLength, msPerMinute in *; lia).
        rewrite (tiling_empty c e) by lia.
        rewrite (tiling_empty (c + slotLength) e) by lia. reflexivity.
    + apply Z.ltb_ge in Hce. symmetry. apply tiling_empty. lia.
Qed.

Lemma tileFuel_enough c e : e - c < Z.of_nat (tileFuel c e) * slotLength.
Proof.
  pose proof slotLength_pos as Hp. unfold tileFuel.
  change (30 * msPerMinute) with slotLength.
  destruct (Z_lt_le_dec (e - c) 0) as [Hneg|Hpos].
  - nia.
  - assert (0 <= (e - c) / slotLength) by (apply Z.div_pos; lia).
    rewrite Z2Nat.id by lia.
    pose proof (Z.div_mod (e - c) slotLength ltac:(lia)).
    pose proof (Z.mod_pos_bound (e - c) slotLength Hp). nia.
Qed.

(** The loop has left by the time the fuel of [buildSlots] is used up: any
    larger fuel gives the same slots. *)
Lemma tileLoop_more_fuel tza c e f :
  (tileFuel c e <= f)%nat -> tileLoop tza f c e = buildSlots tza c e.
Proof.
  intros Hf. unfold buildSlots.
  pose proof (tileFuel_enough c e).
  rewrite !tileLoop_tiling; [reflexivity | lia |].
  pose proof slotLength_pos.
  assert (Z.of_nat (tileFuel c e) <= Z.of_nat f) by lia. nia.
Qed.

Lemma buildSlots_tiling tza ws we : buildSlots tza ws we = tiling ws we.
Proof. apply tileLoop_tiling, tileFuel_enough. Qed.

Lemma tiling_length ws we :
  ws < we -> Z.of_nat (List.length (tiling ws we)) = (we - ws) / slotLength.
Proof.
  intros H. unfold tiling. rewrite length_map, length_seq.
  apply Z2Nat.id, Z.div_pos; [lia | apply slotLength_pos].
Qed.

Lemma in_tiling ws we sl :
  In sl (tiling ws we) <->
  exists i : nat,
    sl = nthSlot ws i /\ ws + (Z.of_nat i + 1) * slotLength <= we.
Proof.
  pose proof slotLength_pos as Hp.
  unfold tiling. rewrite in_map_iff. split.
  - intros (i & <- & Hi). exists i. split; [reflexivity|].
    apply in_seq in Hi.
    assert (Z.of_nat i + 1 <= (we - ws) / slotLength) by lia.
    pose proof (Z.mul_div_le (we - ws) slotLength Hp). nia.
  - intros (i & -> & Hi). exists i. split; [reflexivity|].
    apply in_seq. split; [lia|]. simpl.
    assert (Z.of_nat i + 1 <= (we - ws) / slotLength).
    { apply Z.div_le_lower_bound; lia. }
    lia.
Qed.

(* ================================================================== *)
(** * Classification *)
(* ================================================================== *)

Lemma markSlots_map tza event slots :
  markSlots tza event slots = map (markOne tza event) slots.
Proof.
  unfold markSlots, markOne.
  destruct (start_dateTime event), (end_dateTime event);
    try reflexivity; symmetry; apply map_id.
Qed.

Lemma markOverlaps_map event slots :
  markOverlaps event slots = map (markOverlapOne event) slots.
Proof.
  unfold markOverlaps, markOverlapOne.
  destruct (start_dateTime event), (end_dateTime event);
    try reflexivity; symmetry; apply map_id.
Qed.

(** The events act on each slot separately. *)
Lemma classifySlots_map tza events : forall slots,
  classifySlots tza events slots =
  map (fun slot => fold_left (fun s ev => markOne tza ev s) events slot) slots.
Proof.
  unfold classifySlots.
  induction events as [|ev events IH]; intros slots; simpl.
  - symmetry. apply map_id.
  - rewrite IH, markSlots_map, map_map. reflexivity.
Qed.

Lemma markSlot_bounds es ee b rd ru slot :
  slot_start (markSlot es ee b rd ru slot) = slot_start slot
  /\ slot_end (markSlot es ee b rd ru slot) = slot_end slot.
Proof.
  unfold markSlot.
  repeat match goal with
         | |- context [if ?c then _ else _] => destruct c
         end; simpl; auto.
Qed.

Lemma markOne_bounds tza ev slot :
  slot_start (markOne tza ev slot) = slot_start slot
  /\ slot_end (markOne tza ev slot) = slot_end slot.
Proof.
  unfold markOne.
  destruct (start_dateTime ev), (end_dateTime ev); auto using markSlot_bounds.
Qed.

Lemma overlapsEvent_bounds s1 s2 ev :
  slot_start s1 = slot_start s2 -> slot_end s1 = slot_end s2 ->
  overlapsEvent s1 ev = overlapsEvent s2 ev.
Proof. unfold overlapsEvent. intros -> ->. reflexivity. Qed.

Lemma adjacentToEvent_bounds tza s1 s2 ev :
  slot_start s1 = slot_start s2 -> slot_end s1 = slot_end s2 ->
  adjacentToEvent tza s1 ev = adjacentToEvent tza s2 ev.
Proof. unfold adjacentToEvent. intros -> ->. reflexivity. Qed.

(** One event on one slot: the overlap flag accumulates; the adjacency flag
    is raised only on a slot that no event so far overlaps. *)
Lemma markOne_flags tza ev slot :
  isOverlapping (markOne tza ev slot)
  = isOverlapping slot || overlapsEvent slot ev
  /\ isAdjacent (markOne tza ev slot)
     = isAdjacent slot
       || (negb (isOverlapping slot) && negb (overlapsEvent slot ev)
           && adjacentToEvent tza slot ev).
Proof.
  unfold markOne, overlapsEvent, adjacentToEvent, markSlot, getTime.
  destruct (start_dateTime ev) as [es|], (end_dateTime ev) as [ee|];
    try (rewrite !andb_false_r, !orb_false_r; auto; fail).
  destruct slot as [s e o a]; simpl.
  destruct o, a, ((s <? ee) && (e >? es)), (isSyntheticAllDay ev),
    ((e =? roundDown30 tza es) || (s =? roundUp30 tza ee)); simpl; auto.
Qed.

Lemma fold_markOne_bounds tza events : forall slot,
  slot_start (fold_left (fun s ev => markOne tza ev s) events slot)
  = slot_start slot
  /\ slot_end (fold_left (fun s ev => markOne tza ev s) events slot)
     = slot_end slot.
Proof.
  induction events as [|ev events IH]; intros slot; simpl; [auto|].
  destruct (IH (markOne tza ev slot)) as [-> ->]. apply markOne_bounds.
Qed.

Lemma existsb_pointwise {A} (f g : A -> bool) (l : list A) :
  (forall x, f x = g x) -> existsb f l = existsb g l.
Proof.
  intros H. induction l as [|x l IH]; simpl; [reflexivity|].
  rewrite H, IH. reflexivity.
Qed.

(** All events on one slot. *)
Lemma fold_markOne_flags tza events : forall slot,
  let final := fold_left (fun s ev => markOne tza ev s) events slot in
  isOverlapping final
  = isOverlapping slot || existsb (overlapsEvent slot) events
  /\ eligible final
     = negb (isOverlapping slot || existsb (overlapsEvent slot) events)
       && (isAdjacent slot || existsb (adjacentToEvent tza slot) events).
Proof.
  induction events as [|ev events IH]; intros slot; simpl.
  - unfold eligible. rewrite !orb_false_r. auto.
  - destruct (IH (markOne tza ev slot)) as [Ho He]. simpl in Ho, He.
    destruct (markOne_bounds tza ev slot) as [Hs Hn].
    destruct (markOne_flags tza ev slot) as [Fo Fa].
    rewrite Ho, He, Fo, Fa.
    rewrite (existsb_pointwise _ _ events
               (fun e => overlapsEvent_bounds _ _ e Hs Hn)).
    rewrite (existsb_pointwise _ _ events
               (fun e => adjacentToEvent_bounds tza _ _ e Hs Hn)).
    split.
    + rewrite orb_assoc. reflexivity.
    + destruct (isOverlapping slot), (overlapsEvent slot ev),
        (isAdjacent slot), (adjacentToEvent tza slot ev),
        (existsb (overlapsEvent slot) events),
        (existsb (adjacentToEvent tza slot) events); reflexivity.
Qed.

Lemma filter_map_comm {A B} (f : A -> B) (p : B -> bool) (l : list A) :
  filter p (map f l) = map f (filter (fun x => p (f x)) l).
Proof.
  induction l as [|x l IH]; simpl; [reflexivity|].
  destruct (p (f x)); simpl; rewrite IH; reflexivity.
Qed.

Lemma tiling_fresh ws we sl :
  In sl (tiling ws we) -> isOverlapping sl = false /\ isAdjacent sl = false.
Proof.
  intros H. apply in_tiling in H. destruct H as (i & -> & _). auto.
Qed.

Lemma calculateAdjacentSlots_bookable tza events ws we :
  calculateAdjacentSlots tza events ws we =
  map slotRange (filter (bookable tza events) (tiling ws we)).
Proof.
  unfold calculateAdjacentSlots.
  destruct events as [|ev events].
  - simpl. unfold bookable. simpl.
    induction (tiling ws we) as [|s l IH]; [reflexivity | exact IH].
  - change (Z.of_nat (List.length (ev :: events)) =? 0) with false. cbv iota.
    rewrite buildSlots_tiling, classifySlots_map.
    set (evs := ev :: events).
    set (fin := fun slot => fold_left (fun s e => markOne tza e s) evs slot).
    change (fun slot => negb (isOverlapping slot) && isAdjacent slot)
      with eligible.
    rewrite filter_map_comm, map_map.
    assert (Hf : forall sl, In sl (tiling ws we) ->
                 eligible (fin sl) = bookable tza evs sl).
    { intros sl Hin. destruct (tiling_fresh _ _ _ Hin) as [Ho Ha].
      destruct (fold_markOne_flags tza evs sl) as [_ He].
      unfold fin. rewrite He, Ho, Ha. reflexivity. }
    assert (Hr : forall sl, slotRange (fin sl) = slotRange sl).
    { intros sl. unfold slotRange, fin.
      destruct (fold_markOne_bounds tza evs sl) as [-> ->]. reflexivity. }
    rewrite (map_ext _ _ Hr).
    f_equal. apply filter_ext_in. exact Hf.
Qed.

Lemma fold_markOverlapOne events : forall slot : Slot,
  let final := fold_left (fun s ev => markOverlapOne ev s) events slot in
  slotRange final = slotRange slot
  /\ isOverlapping final
     = isOverlapping slot || existsb (overlapsEvent slot) events.
Proof.
  induction events as [|ev events IH]; intros slot; simpl.
  - rewrite orb_false_r. auto.
  - destruct (IH (markOverlapOne ev slot)) as [Hr Ho]. simpl in Hr, Ho.
    rewrite Hr, Ho.
    assert (H1 : slotRange (markOverlapOne ev slot) = slotRange slot
                 /\ isOverlapping (markOverlapOne ev slot)
                    = isOverlapping slot || overlapsEvent slot ev).
    { unfold markOverlapOne, overlapsEvent, markOverlap, slotRange.
      destruct (start_dateTime ev) as [es|], (end_dateTime ev) as [ee|];
        try (rewrite orb_false_r; auto; fail).
      destruct slot as [s e o a]; simpl.
      destruct o, ((s <? ee) && (e >? es)); simpl; auto. }
    destruct H1 as [H1 H2]. rewrite H1, H2. split; [reflexivity|].
    rewrite <- orb_assoc. f_equal. f_equal.
    apply existsb_pointwise. intros e.
    unfold slotRange in H1. injection H1 as Hs He.
    apply overlapsEvent_bounds; assumption.
Qed.

Lemma calculateAllSlots_free tza events ws we :
  calculateAllSlots tza events ws we =
  map slotRange
    (filter (fun slot => negb (existsb (overlapsEvent slot) events))
       (tiling ws we)).
Proof.
  unfold calculateAllSlots. rewrite buildSlots_tiling.
  assert (Hm : forall slots,
    fold_left (fun slots event => markOverlaps event slots) events slots
    = map (fun slot => fold_left (fun s ev => markOverlapOne ev s) events slot)
        slots).
  { induction events as [|ev evs IH]; intros slots; simpl.
    - symmetry. apply map_id.
    - rewrite IH, markOverlaps_map, map_map. reflexivity. }
  rewrite Hm, filter_map_comm, map_map.
  rewrite (map_ext _ slotRange
             (fun sl => proj1 (fold_markOverlapOne events sl))).
  f_equal. apply filter_ext_in. intros sl Hin.
  destruct (tiling_fresh _ _ _ Hin) as [Ho _].
  rewrite (proj2 (fold_markOverlapOne events sl)), Ho. reflexivity.
Qed.

(* ------------------------------------------------------------------ *)
(** ** Order of the slots *)

Lemma StronglySorted_filter {A} (R : A -> A -> Prop) (p : A -> bool) l :
  StronglySorted R l -> StronglySorted R (filter p l).
Proof.
  induction 1 as [|a l Hl IH Ha]; simpl; [constructor|].
  destruct (p a); [|assumption].
  constructor; [assumption|].
  rewrite Forall_forall in *. intros x Hx.
  apply filter_In in Hx. apply Ha, Hx.
Qed.

Lemma StronglySorted_map {A B} (R : A -> A -> Prop) (R' : B -> B -> Prop)
    (f : A -> B) l :
  (forall a b, R a b -> R' (f a) (f b)) ->
  StronglySorted R l -> StronglySorted R' (map f l).
Proof.
  intros Hf. induction 1 as [|a l Hl IH Ha]; simpl; constructor.
  - assumption.
  - rewrite Forall_forall in *. intros y Hy.
    apply in_map_iff in Hy. destruct Hy as (x & <- & Hx). apply Hf, Ha, Hx.
Qed.

Lemma StronglySorted_seq a n : StronglySorted lt (seq a n).
Proof.
  revert a. induction n as [|n IH]; intros a; simpl; constructor.
  - apply IH.
  - rewrite Forall_forall. intros x Hx. apply in_seq in Hx. lia.
Qed.

Lemma tiling_selection_sorted (p : Slot -> bool) ws we :
  StronglySorted precedes (map slotRange (filter p (tiling ws we))).
Proof.
  unfold tiling. rewrite filter_map_comm, map_map.
  apply StronglySorted_map with (R := lt).
  - intros a b Hab. unfold precedes, slotRange, nthSlot. simpl.
    pose proof slotLength_pos. nia.
  - apply StronglySorted_filter, StronglySorted_seq.
Qed.

Lemma tiling_selection_shape (p : Slot -> bool) ws we r :
  In r (map slotRange (filter p (tiling ws we))) ->
  exists sl i,
    In sl (tiling ws we) /\ p sl = true /\ r = slotRange sl
    /\ sl = nthSlot ws i
    /\ ws + (Z.of_nat i + 1) * slotLength <= we.
Proof.
  intros H. apply in_map_iff in H. destruct H as (sl & <- & Hsl).
  apply filter_In in Hsl. destruct Hsl as [Hin Hp].
  destruct (proj1 (in_tiling ws we sl) Hin) as (i & Hi & Hle).
  exists sl, i. auto.
Qed.

(* ================================================================== *)
(** * Rounding *)
(* ================================================================== *)

Lemma setSeconds_zero tza t :
  setSeconds tza t 0 0 = t - (t + tza) mod msPerMinute.
Proof.
  unfold_time. set (l := t + tza).
  assert (Hl : t = l - tza) by (unfold l; lia). clearbody l.
  Z.to_euclidean_division_equations. lia.
Qed.

Lemma MinFromTime_local_zeroed l :
  MinFromTime (l - l mod msPerMinute) = MinFromTime l.
Proof.
  unfold_time. Z.to_euclidean_division_equations. lia.
Qed.

Lemma roundDown30_spec tza t :
  roundDown30 tza t = UTC tza (spec_roundDown (LocalTime tza t)).
Proof.
  unfold roundDown30, spec_roundDown.
  rewrite !setMinutes_shift, setSeconds_zero.
  unfold getMinutes, LocalTime, UTC.
  replace (t - (t + tza) mod msPerMinute + tza)
    with ((t + tza) - (t + tza) mod msPerMinute) by lia.
  rewrite MinFromTime_local_zeroed.
  set (l := t + tza).
  assert (Hl : t = l - tza) by (unfold l; lia). clearbody l. subst t.
  destruct (MinFromTime l >=? 30) eqn:Hm;
    unfold_time; Z.to_euclidean_division_equations; lia.
Qed.

Lemma setHours_shift tza t h :
  setHours tza t h = t + (h - getHours tza t) * msPerHour.
Proof.
  unfold_time. set (l := t + tza).
  assert (Hl : t = l - tza) by (unfold l; lia). clearbody l.
  Z.to_euclidean_division_equations. lia.
Qed.

Lemma roundUp30_spec tza t :
  roundUp30 tza t = UTC tza (spec_roundUp (LocalTime tza t)).
Proof.
  unfold roundUp30, spec_roundUp.
  rewrite setHours_shift, !setMinutes_shift, setSeconds_zero.
  unfold getMinutes, LocalTime, UTC.
  replace (t - (t + tza) mod msPerMinute + tza)
    with ((t + tza) - (t + tza) mod msPerMinute) by lia.
  rewrite MinFromTime_local_zeroed.
  set (l := t + tza).
  assert (Hl : t = l - tza) by (unfold l; lia). clearbody l. subst t.
  destruct (MinFromTime l >? 30) eqn:Hm.
  - unfold_time. Z.to_euclidean_division_equations. lia.
  - destruct ((MinFromTime l >? 0) && (MinFromTime l <=? 30)) eqn:Hm2.
    + unfold_time. Z.to_euclidean_division_equations. lia.
    + apply andb_false_iff in Hm2.
      unfold_time. Z.to_euclidean_division_equations. lia.
Qed.

(** Rounding down never passes the instant; rounding up falls short of it
    only by the seconds it drops. *)
Lemma roundDown30_le tza t : roundDown30 tza t <= t.
Proof.
  rewrite roundDown30_spec. unfold spec_roundDown, UTC, LocalTime.
  set (l := t + tza).
  assert (Hl : t = l - tza) by (unfold l; lia). clearbody l. subst t.
  destruct (MinFromTime l >=? 30) eqn:Hm;
    unfold_time; Z.to_euclidean_division_equations; lia.
Qed.

Lemma roundUp30_ge tza t :
  (t + tza) mod msPerMinute = 0 -> t <= roundUp30 tza t.
Proof.
  rewrite roundUp30_spec. unfold spec_roundUp, UTC, LocalTime.
  set (l := t + tza).
  assert (Hl : t = l - tza) by (unfold l; lia). clearbody l. subst t.
  intros Hz.
  destruct (MinFromTime l >? 30) eqn:Hm;
    [|destruct ((MinFromTime l >? 0) && (MinFromTime l <=? 30)) eqn:Hm2;
      [|apply andb_false_iff in Hm2]];
    unfold_time; Z.to_euclidean_division_equations; lia.
Qed.

(* ================================================================== *)
(** * Calendar *)
(* ================================================================== *)

Lemma DayFromYear_succ y : DayFromYear (y + 1) = DayFromYear y + DaysInYear y.
Proof.
  unfold DayFromYear, DaysInYear.
  destruct (y mod 4 =? 0) eqn:H4; cbv [negb];
    [destruct (y mod 100 =? 0) eqn:H100; cbv [negb];
     [destruct (y mod 400 =? 0) eqn:H400; cbv [negb]|]|];
    rewrite ?Z.eqb_eq, ?Z.eqb_neq in *;
    Z.to_euclidean_division_equations; lia.
Qed.

Lemma DaysInYear_cases y : DaysInYear y = 365 \/ DaysInYear y = 366.
Proof.
  unfold DaysInYear.
  destruct (y mod 4 =? 0), (y mod 100 =? 0), (y mod 400 =? 0); simpl; auto.
Qed.

Lemma DayFromYear_lt y1 y2 : y1 < y2 -> DayFromYear y1 < DayFromYear y2.
Proof.
  intros H. unfold DayFromYear. Z.to_euclidean_division_equations. lia.
Qed.

Lemma DayFromYear_le y1 y2 : y1 <= y2 -> DayFromYear y1 <= DayFromYear y2.
Proof.
  intros H. destruct (Z.eq_dec y1 y2) as [->|Hne]; [lia|].
  apply Z.lt_le_incl, DayFromYear_lt. lia.
Qed.

(** [YearFromDay] meets the definition of ECMAScript: the year whose first
    day is the last one not after [d]. *)
Lemma YearFromDay_spec d :
  DayFromYear (YearFromDay d) <= d < DayFromYear (YearFromDay d + 1).
Proof.
  unfold YearFromDay.
  set (q := (d - 10957) / 146097).
  set (r := (d - 10957) mod 146097).
  assert (Hd : d = 10957 + 146097 * q + r).
  { unfold q, r. pose proof (Z.div_mod (d - 10957) 146097). lia. }
  assert (Hr : 0 <= r < 146097) by (apply Z.mod_pos_bound; lia).
  clearbody q r. subst d.
  set (k0 := r / 366).
  assert (Hk0 : 366 * k0 <= r < 366 * k0 + 366).
  { unfold k0. pose proof (Z.div_mod r 366).
    pose proof (Z.mod_pos_bound r 366). lia. }
  clearbody k0.
  assert (Hcyc : forall k, DayFromYear (2000 + 400 * q + k)
                           = 146097 * q + DayFromYear (2000 + k)).
  { intros k. unfold DayFromYear. Z.to_euclidean_division_equations. lia. }
  destruct (DayFromYear (2000 + (k0 + 2)) - 10957 <=? r) eqn:H2;
    [|destruct (DayFromYear (2000 + (k0 + 1)) - 10957 <=? r) eqn:H1];
    rewrite ?Z.leb_le, ?Z.leb_gt in *.
  - replace (2000 + 400 * q + (k0 + 2) + 1)
      with (2000 + 400 * q + (k0 + 3)) by lia.
    rewrite !Hcyc. split; [lia|].
    unfold DayFromYear in *. Z.to_euclidean_division_equations. lia.
  - replace (2000 + 400 * q + (k0 + 1) + 1)
      with (2000 + 400 * q + (k0 + 2)) by lia.
    rewrite !Hcyc. lia.
  - replace (2000 + 400 * q + k0 + 1)
      with (2000 + 400 * q + (k0 + 1)) by lia.
    rewrite !Hcyc. split; [|lia].
    unfold DayFromYear in *. Z.to_euclidean_division_equations. lia.
Qed.

Lemma YearFromDay_unique y d :
  DayFromYear y <= d < DayFromYear (y + 1) -> YearFromDay d = y.
Proof.
  intros [Hlo Hhi].
  destruct (YearFromDay_spec d) as [Slo Shi].
  destruct (Z.lt_trichotomy (YearFromDay d) y) as [Hlt|[Heq|Hgt]];
    [|assumption|].
  - pose proof (DayFromYear_le (YearFromDay d + 1) y ltac:(lia)). lia.
  - pose proof (DayFromYear_le (y + 1) (YearFromDay d) ltac:(lia)). lia.
Qed.

Ltac month_cases m :=
  let H := fresh "Hm" in
  assert (H : m = 1 \/ m = 2 \/ m = 3 \/ m = 4 \/ m = 5 \/ m = 6 \/ m = 7
              \/ m = 8 \/ m = 9 \/ m = 10 \/ m = 11 \/ m = 12) by lia;
  destruct H as [H|[H|[H|[H|[H|[H|[H|[H|[H|[H|[H|H]]]]]]]]]]]; subst m;
  repeat match goal with
         | |- context [Z.pos ?a - 1] =>
             let v := eval vm_compute in (Z.pos a - 1) in
             change (Z.pos a - 1) with v
         | H : context [Z.pos ?a - 1] |- _ =>
             let v := eval vm_compute in (Z.pos a - 1) in
             change (Z.pos a - 1) with v in H
         end.

(** Splits on the length of the year and evaluates the month tables. *)
Ltac leap_cases y :=
  let L := fresh "L" in
  cbv beta iota delta [DaysBeforeMonth DaysInMonth] in *;
  destruct (DaysInYear_cases y) as [L|L]; rewrite ?L in *;
  [change (365 =? 366) with false in * | change (366 =? 366) with true in *];
  cbv beta iota in *.

Ltac decide_ltb :=
  repeat match goal with
         | |- context [?a <? ?b] => destruct (Z.ltb_spec a b); try lia
         end.

Lemma Day_MakeDate D tod :
  0 <= tod < msPerDay ->
  Day (MakeDate D tod) = D /\ TimeWithinDay (MakeDate D tod) = tod.
Proof.
  intros H. unfold_time. Z.to_euclidean_division_equations. lia.
Qed.

(** The day number of a date of the calendar lies in its year. *)
Lemma MakeDay_in_year y m d :
  calendar_day (mkDate y m d) ->
  MakeDay y (m - 1) d
  = DayFromYear y
    + DaysBeforeMonth (if DaysInYear y =? 366 then 1 else 0) (m - 1) + d - 1
  /\ DayFromYear y <= MakeDay y (m - 1) d < DayFromYear (y + 1).
Proof.
  unfold calendar_day. cbn [cd_year cd_month cd_day]. intros [Hm Hd].
  rewrite DayFromYear_succ.
  assert (E : MakeDay y (m - 1) d
              = DayFromYear y
                + DaysBeforeMonth (if DaysInYear y =? 366 then 1 else 0)
                    (m - 1) + d - 1).
  { unfold MakeDay.
    replace ((m - 1) / 12) with 0
      by (Z.to_euclidean_division_equations; lia).
    replace ((m - 1) mod 12) with (m - 1)
      by (Z.to_euclidean_division_equations; lia).
    rewrite Z.add_0_r. reflexivity. }
  split; [exact E|]. rewrite E. clear E.
  month_cases m; leap_cases y; lia.
Qed.

(** Reading back the fields of a date of the calendar. *)
Lemma date_fields y m d tod :
  calendar_day (mkDate y m d) -> 0 <= tod < msPerDay ->
  let t := MakeDate (MakeDay y (m - 1) d) tod in
  YearFromTime t = y /\ MonthFromTime t = m - 1 /\ DateFromTime t = d
  /\ WeekDay t = (MakeDay y (m - 1) d + 4) mod 7.
Proof.
  intros Hc Htod t.
  destruct (MakeDay_in_year y m d Hc) as [E Hrange].
  destruct (Day_MakeDate (MakeDay y (m - 1) d) tod Htod) as [HD HT].
  assert (HY : YearFromTime t = y).
  { unfold YearFromTime, t. rewrite HD. apply YearFromDay_unique, Hrange. }
  assert (HW : DayWithinYear t
               = DaysBeforeMonth (if DaysInYear y =? 366 then 1 else 0)
                   (m - 1) + d - 1).
  { unfold DayWithinYear. rewrite HY. unfold t. rewrite HD. lia. }
  assert (HL : InLeapYear t = if DaysInYear y =? 366 then 1 else 0).
  { unfold InLeapYear. rewrite HY. reflexivity. }
  assert (HWk : WeekDay t = (MakeDay y (m - 1) d + 4) mod 7).
  { unfold WeekDay, t. rewrite HD. reflexivity. }
  clearbody t. clear E Hrange HD HT.
  destruct Hc as [Hm Hd]. cbn [cd_year cd_month cd_day] in Hm, Hd.
  split; [exact HY|].
  assert (HM : MonthFromTime t = m - 1).
  { unfold MonthFromTime. rewrite HW, HL. clear HW HL HY.
    month_cases m; leap_cases y; decide_ltb; reflexivity. }
  split; [exact HM|]. split.
  - unfold DateFromTime. rewrite HM, HW, HL. clear HW HL HY HM.
    month_cases m; leap_cases y; lia.
  - exact HWk.
Qed.

(** Day numbers follow the order of the dates. *)
Lemma MakeDay_date_lt a b :
  calendar_day a -> calendar_day b -> date_lt a b ->
  MakeDay (cd_year a) (cd_month a - 1) (cd_day a)
  < MakeDay (cd_year b) (cd_month b - 1) (cd_day b).
Proof.
  destruct a as [ya ma da], b as [yb mb db]. cbn [cd_year cd_month cd_day].
  intros Ha Hb Hlt.
  destruct (MakeDay_in_year ya ma da Ha) as [Ea Ra].
  destruct (MakeDay_in_year yb mb db Hb) as [Eb Rb].
  destruct Hlt as [Hy|[Hy Hmd]]; cbn [cd_year cd_month cd_day] in *.
  - pose proof (DayFromYear_le (ya + 1) yb ltac:(lia)). lia.
  - subst yb. rewrite Ea, Eb. clear Ea Eb Ra Rb.
    destruct Ha as [Hma Hda], Hb as [Hmb Hdb].
    cbn [cd_year cd_month cd_day] in *.
    month_cases ma; month_cases mb; try lia; leap_cases ya; lia.
Qed.

Lemma date_trichotomy a b : date_lt a b \/ a = b \/ date_lt b a.
Proof.
  destruct a as [ya ma da], b as [yb mb db]. unfold date_lt.
  cbn [cd_year cd_month cd_day].
  destruct (Z.lt_trichotomy ya yb) as [|[->|]]; [lia| |lia].
  destruct (Z.lt_trichotomy ma mb) as [|[->|]]; [lia| |lia].
  destruct (Z.lt_trichotomy da db) as [|[->|]]; [lia| |lia].
  right. left. reflexivity.
Qed.

Lemma MakeDay_lt_iff a b :
  calendar_day a -> calendar_day b ->
  (date_lt a b <->
   MakeDay (cd_year a) (cd_month a - 1) (cd_day a)
   < MakeDay (cd_year b) (cd_month b - 1) (cd_day b)).
Proof.
  intros Ha Hb. split; [apply MakeDay_date_lt; assumption|].
  intros H. destruct (date_trichotomy a b) as [Hlt|[->|Hgt]];
    [assumption|lia|].
  pose proof (MakeDay_date_lt b a Hb Ha Hgt). lia.
Qed.

Lemma MakeDay_le_iff a b :
  calendar_day a -> calendar_day b ->
  (date_le a b <->
   MakeDay (cd_year a) (cd_month a - 1) (cd_day a)
   <= MakeDay (cd_year b) (cd_month b - 1) (cd_day b)).
Proof.
  intros Ha Hb. unfold date_le. split.
  - intros [Hlt| ->]; [|lia].
    pose proof (MakeDay_date_lt a b Ha Hb Hlt). lia.
  - intros H. destruct (date_trichotomy a b) as [Hlt|[->|Hgt]]; auto.
    pose proof (MakeDay_date_lt b a Hb Ha Hgt). lia.
Qed.

Lemma valid_date_calendar_day c : valid_date c -> calendar_day c.
Proof. unfold valid_date, calendar_day. tauto. Qed.

(** [Date.UTC] reads a year from 100 on as written. *)
Lemma DateUTC_full_year y mn d h mi s :
  100 <= y ->
  DateUTC y mn d h mi s = MakeDate (MakeDay y mn d) (MakeTime h mi s 0).
Proof.
  intros Hy. unfold DateUTC.
  destruct (Z.leb_spec y 99); [lia|].
  rewrite andb_false_r. reflexivity.
Qed.

Lemma selectedDateUTC_parse c :
  100 <= cd_year c -> selectedDateUTC c = parseDateUTC c 0.
Proof.
  intros Hy. unfold selectedDateUTC, parseDateUTC.
  apply DateUTC_full_year. exact Hy.
Qed.

(** Midnights compare as their dates do. *)
Lemma midnight_le_iff a b :
  calendar_day a -> calendar_day b ->
  (parseDateUTC a 0 <= parseDateUTC b 0 <-> date_le a b).
Proof.
  intros Ha Hb. rewrite (MakeDay_le_iff a b Ha Hb).
  unfold parseDateUTC. unfold_time. lia.
Qed.

Lemma midnight_lt_iff a b :
  calendar_day a -> calendar_day b ->
  (parseDateUTC a 0 < parseDateUTC b 0 <-> date_lt a b).
Proof.
  intros Ha Hb. rewrite (MakeDay_lt_iff a b Ha Hb).
  unfold parseDateUTC. unfold_time. lia.
Qed.

(* ================================================================== *)
(** * Daylight saving *)
(* ================================================================== *)

Lemma MakeDay_date y mn d : MakeDay y mn d = MakeDay y mn 1 + (d - 1).
Proof. unfold MakeDay. lia. Qed.

(** [setUTCDate] on the first of a month at midnight. *)
Lemma setUTCDate_first y m dt :
  100 <= y -> 1 <= m <= 12 ->
  setUTCDate (DateUTC y (m - 1) 1 0 0 0) dt
  = MakeDate (MakeDay y (m - 1) dt) 0.
Proof.
  intros Hy Hm. rewrite DateUTC_full_year by assumption.
  change (MakeTime 0 0 0 0) with 0.
  assert (Hc : calendar_day (mkDate y m 1)).
  { split; cbn [cd_year cd_month cd_day]; [lia|].
    unfold DaysInMonth.
    destruct (DaysInYear y =? 366); month_cases m; lia. }
  assert (Ht : 0 <= 0 < msPerDay) by (unfold msPerDay; lia).
  destruct (date_fields y m 1 0 Hc Ht) as (HY & HM & _ & _).
  destruct (Day_MakeDate (MakeDay y (m - 1) 1) 0 Ht) as [_ HT].
  unfold setUTCDate. rewrite HY, HM, HT. reflexivity.
Qed.

Lemma WeekDay_first y m :
  100 <= y -> 1 <= m <= 12 ->
  getUTCDay (DateUTC y (m - 1) 1 0 0 0) = (MakeDay y (m - 1) 1 + 4) mod 7
  /\ getUTCDate (DateUTC y (m - 1) 1 0 0 0) = 1.
Proof.
  intros Hy Hm. rewrite DateUTC_full_year by assumption.
  change (MakeTime 0 0 0 0) with 0.
  assert (Hc : calendar_day (mkDate y m 1)).
  { split; cbn [cd_year cd_month cd_day]; [lia|].
    unfold DaysInMonth.
    destruct (DaysInYear y =? 366); month_cases m; lia. }
  assert (Ht : 0 <= 0 < msPerDay) by (unfold msPerDay; lia).
  destruct (date_fields y m 1 0 Hc Ht) as (_ & _ & HD & HW).
  unfold getUTCDay, getUTCDate. auto.
Qed.

Lemma weekday_MakeDay y m d :
  weekday (mkDate y m d) = (MakeDay y (m - 1) d + 4) mod 7.
Proof.
  unfold weekday, parseDateUTC, WeekDay. cbn [cd_year cd_month cd_day].
  change (MakeTime 0 0 0 0) with 0.
  assert (Ht : 0 <= 0 < msPerDay) by (unfold msPerDay; lia).
  destruct (Day_MakeDate (MakeDay y (m - 1) d) 0 Ht) as [-> _]. reflexivity.
Qed.

(** The two dates [isEasternTimeDST] computes are the second Sunday of March
    and the first Sunday of November. *)
Lemma march_second_sunday y s :
  secondSundayOfMarch y s ->
  1 + Z.rem (7 - (MakeDay y 2 1 + 4) mod 7) 7 + 7 = s.
Proof.
  intros [Hs Hw]. rewrite weekday_MakeDay in Hw.
  change (3 - 1) with 2 in Hw. rewrite MakeDay_date in Hw.
  set (D := MakeDay y 2 1) in *. clearbody D.
  rewrite Z.rem_mod_nonneg
    by (pose proof (Z.mod_pos_bound (D + 4) 7); lia).
  Z.to_euclidean_division_equations. lia.
Qed.

Lemma november_first_sunday y s :
  firstSundayOfNovember y s ->
  1 + Z.rem (7 - (MakeDay y 10 1 + 4) mod 7) 7 = s.
Proof.
  intros [Hs Hw]. rewrite weekday_MakeDay in Hw.
  change (11 - 1) with 10 in Hw. rewrite MakeDay_date in Hw.
  set (D := MakeDay y 10 1) in *. clearbody D.
  rewrite Z.rem_mod_nonneg
    by (pose proof (Z.mod_pos_bound (D + 4) 7); lia).
  Z.to_euclidean_division_equations. lia.
Qed.

Lemma isEasternTimeDST_sundays c s1 s2 :
  valid_date c ->
  secondSundayOfMarch (cd_year c) s1 ->
  firstSundayOfNovember (cd_year c) s2 ->
  isEasternTimeDST c
  = (parseDateUTC c 12 >=? parseDateUTC (mkDate (cd_year c) 3 s1) 0)
    && (parseDateUTC c 12 <? parseDateUTC (mkDate (cd_year c) 11 s2) 0).
Proof.
  intros Hv H1 H2. destruct c as [y m d].
  destruct Hv as (Hy & Hm & Hd). cbn [cd_year cd_month cd_day] in *.
  unfold isEasternTimeDST.
  assert (HY : getUTCFullYear (parseDateUTC (mkDate y m d) 12) = y).
  { unfold getUTCFullYear, parseDateUTC. cbn [cd_year cd_month cd_day].
    apply (date_fields y m d (MakeTime 12 0 0 0)).
    - split; assumption.
    - vm_compute. split; discriminate || reflexivity. }
  rewrite HY. cbv zeta.
  destruct (WeekDay_first y 3 ltac:(lia) ltac:(lia)) as [W3 D3].
  destruct (WeekDay_first y 11 ltac:(lia) ltac:(lia)) as [W11 D11].
  change (3 - 1) with 2 in *. change (11 - 1) with 10 in *.
  rewrite W3, D3, W11, D11.
  rewrite (setUTCDate_first y 3) by lia.
  rewrite (setUTCDate_first y 11) by lia.
  change (3 - 1) with 2. change (11 - 1) with 10.
  rewrite (march_second_sunday y s1 H1), (november_first_sunday y s2 H2).
  reflexivity.
Qed.

(* ================================================================== *)
(** * The claims *)
(* ================================================================== *)

(** C5.  The tiling starts at the start of the window and puts one slot of
    30 minutes after the other; no slot ends after the end of the window, so
    a window with [ws < we] holds [(we - ws) / slotLength] slots (the
    quotient rounded down) and a remainder shorter than a slot is left
    out. *)
Theorem slot_tiling tza ws we :
  ws < we ->
  buildSlots tza ws we
  = map (nthSlot ws) (seq 0 (Z.to_nat ((we - ws) / slotLength)))
  /\ Z.of_nat (List.length (buildSlots tza ws we)) = (we - ws) / slotLength
  /\ (forall sl, In sl (buildSlots tza ws we) ->
        slot_end sl = slot_start sl + slotLength /\ slot_end sl <= we).
Proof.
  intros H. rewrite buildSlots_tiling. split; [reflexivity|]. split.
  - apply tiling_length, H.
  - intros sl Hin. apply in_tiling in Hin. destruct Hin as (i & -> & Hi).
    unfold nthSlot. cbn [slot_start slot_end]. lia.
Qed.

Lemma slot_tiling_witness :
  1705327200000 < 1705356900000
  /\ Z.of_nat (List.length (buildSlots 0 1705327200000 1705356900000)) = 16.
Proof.
  split; [lia|].
  apply (slot_tiling 0 1705327200000 1705356900000). lia.
Defined.



Lemma markSlots_single tza ev es ee slot :
  timed ev es ee ->
  markSlots tza ev [slot]
  = [markSlot es ee (isSyntheticAllDay ev) (roundDown30 tza es)
       (roundUp30 tza ee) slot].
Proof. intros [Hs He]. unfold markSlots. rewrite Hs, He. reflexivity. Qed.

Lemma overlap_test s e es ee :
  (s <? ee) && (e >? es) = true <-> overlap s e es ee.
Proof.
  unfold overlap. rewrite andb_true_iff, Z.ltb_lt, Z.gtb_ltb, Z.ltb_lt. lia.
Qed.

(** C1, as the code has it.  For a timed event that is not an all-day block
    and a slot not yet marked, the pass of the event over the slot raises
    [isAdjacent] exactly when the slot does not overlap the event and either
    the end of the slot is the start of the event rounded down or the start
    of the slot is the end of the event rounded up.  Rounding down zeroes
    seconds and milliseconds and sets the minutes to 30 when they are at
    least 30, else to 0; rounding up zeroes seconds and milliseconds, moves
    minutes above 30 to minute 0 of the next hour, minutes from 1 to 30 to
    30 and leaves minute 0 (fields of the server's local time). *)
Theorem adjacency_rule tza ev es ee slot :
  timed ev es ee ->
  isSyntheticAllDay ev = false ->
  isOverlapping slot = false ->
  isAdjacent slot = false ->
  (map isAdjacent (markSlots tza ev [slot]) = [true] <->
   ~ overlap (slot_start slot) (slot_end slot) es ee
   /\ (slot_end slot = roundDown30 tza es
       \/ slot_start slot = roundUp30 tza ee))
  /\ roundDown30 tza es = UTC tza (spec_roundDown (LocalTime tza es))
  /\ roundUp30 tza ee = UTC tza (spec_roundUp (LocalTime tza ee)).
Proof.
  intros Ht Hsyn Ho Ha.
  split; [|split; [apply roundDown30_spec | apply roundUp30_spec]].
  rewrite (markSlots_single tza ev es ee slot Ht), Hsyn.
  unfold markSlot, getTime. rewrite Ho. cbn [negb map].
  pose proof (overlap_test (slot_start slot) (slot_end slot) es ee) as Hov.
  destruct ((slot_start slot <? ee) && (slot_end slot >? es)) eqn:E.
  - cbn [isAdjacent]. rewrite Ha. split; [discriminate|].
    intros [Hno _]. exfalso. apply Hno, Hov. reflexivity.
  - cbn [negb].
    destruct (Z.eqb_spec (slot_end slot) (roundDown30 tza es)) as [E1|E1];
      destruct (Z.eqb_spec (slot_start slot) (roundUp30 tza ee)) as [E2|E2];
      cbn [orb isAdjacent]; rewrite ?Ha; split; try discriminate;
      try (intros _; split; [intros Hc; apply Hov in Hc; discriminate|auto]);
      try reflexivity.
    intros [_ [H|H]]; contradiction.
Qed.

Lemma adjacency_rule_witness :
  let ev := mkEvent "confirmed" None None (Some 1705330800000) None
              (Some 1705334400000) false in
  let slot := mkSlot 1705329000000 1705330800000 false false in
  timed ev 1705330800000 1705334400000
  /\ map isAdjacent (markSlots 0 ev [slot]) = [true].
Proof.
  intros ev slot.
  assert (Ht : timed ev 1705330800000 1705334400000)
    by (split; reflexivity).
  split; [exact Ht|].
  apply (adjacency_rule 0 ev 1705330800000 1705334400000 slot Ht
           eq_refl eq_refl eq_refl).
  split.
  - unfold overlap. simpl. lia.
  - left. vm_compute. reflexivity.
Defined.

(** C1 as stated fails: for an event from 14:00:00 to 15:00:25 UTC the end
    rounds to 15:00:00, the start of the slot 15:00-15:30, yet the slot
    overlaps the event and is not marked adjacent. *)
Lemma adjacency_rule_counterexample :
  let ev := mkEvent "confirmed" None None (Some 1705327200000) None
              (Some 1705330825000) false in
  let slot := mkSlot 1705330800000 1705332600000 false false in
  ~ (map isAdjacent (markSlots 0 ev [slot]) = [true] <->
     slot_end slot = roundDown30 0 1705327200000
     \/ slot_start slot = roundUp30 0 1705330825000).
Proof.
  intros ev slot [_ H].
  assert (Hr : slot_start slot = roundUp30 0 1705330825000)
    by (vm_compute; reflexivity).
  specialize (H (or_intror Hr)). vm_compute in H. discriminate H.
Qed.

(** X25. When the end of the event falls on a whole minute of the server's
    clock, the two equalities alone decide: a slot that meets one of them
    cannot overlap the event. *)
Lemma adjacency_whole_minutes tza ev es ee slot :
  timed ev es ee ->
  isSyntheticAllDay ev = false ->
  isOverlapping slot = false ->
  isAdjacent slot = false ->
  (ee + tza) mod msPerMinute = 0 ->
  (map isAdjacent (markSlots tza ev [slot]) = [true] <->
   slot_end slot = roundDown30 tza es \/ slot_start slot = roundUp30 tza ee).
Proof.
  intros Ht Hsyn Ho Ha Hmin.
  rewrite (markSlots_single tza ev es ee slot Ht), Hsyn.
  unfold markSlot, getTime. rewrite Ho. cbn [negb map].
  pose proof (roundDown30_le tza es) as Hd.
  pose proof (roundUp30_ge tza ee Hmin) as Hu.
  pose proof (overlap_test (slot_start slot) (slot_end slot) es ee) as Hov.
  unfold overlap in Hov.
  destruct ((slot_start slot <? ee) && (slot_end slot >? es)) eqn:E.
  - cbn [isAdjacent]. rewrite Ha. split; [discriminate|].
    assert (slot_start slot < ee /\ slot_end slot > es)
      by (apply Hov; reflexivity).
    lia.
  - cbn [negb].
    destruct (Z.eqb_spec (slot_end slot) (roundDown30 tza es)) as [E1|E1];
      destruct (Z.eqb_spec (slot_start slot) (roundUp30 tza ee)) as [E2|E2];
      cbn [orb isAdjacent]; rewrite ?Ha; split; try discriminate;
      try tauto; try reflexivity.
Qed.

Lemma in_result_bookable tza events ws we r :
  In r (calculateAdjacentSlots tza events ws we) ->
  exists sl, In sl (tiling ws we) /\ r = slotRange sl
             /\ existsb (overlapsEvent sl) events = false
             /\ existsb (adjacentToEvent tza sl) events = true.
Proof.
  rewrite calculateAdjacentSlots_bookable. intros H.
  apply in_map_iff in H. destruct H as (sl & <- & Hsl).
  apply filter_In in Hsl. destruct Hsl as [Hin Hb].
  unfold bookable in Hb. apply andb_true_iff in Hb. destruct Hb as [H1 H2].
  apply negb_true_iff in H1. exists sl. auto.
Qed.

(** The pass of an event over a slot not yet marked. *)
Lemma pass_sets_overlapping tza ev es ee slot :
  timed ev es ee -> isOverlapping slot = false ->
  (map isOverlapping (markSlots tza ev [slot]) = [true] <->
   slot_start slot < ee /\ slot_end slot > es).
Proof.
  intros Ht Ho.
  rewrite (markSlots_single tza ev es ee slot Ht).
  unfold markSlot, getTime. rewrite Ho. cbn [map].
  pose proof (overlap_test (slot_start slot) (slot_end slot) es ee) as Hov.
  unfold overlap in Hov.
  destruct ((slot_start slot <? ee) && (slot_end slot >? es)) eqn:E.
  - cbn [isOverlapping]. split; [intros _; apply Hov|]; reflexivity.
  - assert (Hk : forall s', isOverlapping s' = false ->
                 [isOverlapping s'] = [true] <->
                 slot_start slot < ee /\ slot_end slot > es).
    { intros s' H'. rewrite H'. split; [discriminate|].
      intros H. apply Hov in H. discriminate. }
    destruct (negb (isSyntheticAllDay ev)); [|apply Hk, Ho].
    destruct ((slot_end slot =? roundDown30 tza es)
              || (slot_start slot =? roundUp30 tza ee)); [|apply Hk, Ho].
    cbn [negb]. apply Hk. reflexivity.
Qed.

(** C2.  The pass of an event over a slot not yet marked sets
    [isOverlapping] exactly when the slot starts before the event ends and
    ends after the event starts; and a slot that some event of the list
    overlaps is not in the result of [calculateAdjacentSlots], whatever the
    other events are. *)
Theorem overlap_rule tza ev es ee :
  timed ev es ee ->
  (forall slot, isOverlapping slot = false ->
     (map isOverlapping (markSlots tza ev [slot]) = [true] <->
      slot_start slot < ee /\ slot_end slot > es))
  /\ (forall events ws we r,
        In ev events ->
        range_start r < ee /\ range_end r > es ->
        ~ In r (calculateAdjacentSlots tza events ws we)).
Proof.
  intros Ht. split.
  - intros slot Ho. apply pass_sets_overlapping; assumption.
  - intros events ws we r Hin Hov Hr.
    destruct (in_result_bookable _ _ _ _ _ Hr) as (sl & _ & -> & Hno & _).
    assert (Hex : existsb (overlapsEvent sl) events = true).
    { apply existsb_exists. exists ev. split; [exact Hin|].
      destruct Ht as [Hs He]. unfold overlapsEvent. rewrite Hs, He.
      apply overlap_test. exact Hov. }
    congruence.
Qed.

Lemma overlap_rule_witness :
  let meeting := mkEvent "confirmed" None None (Some 1705330800000) None
                   (Some 1705334400000) false in
  let lunch := mkEvent "confirmed" None None (Some 1705334400000) None
                 (Some 1705338000000) false in
  timed lunch 1705334400000 1705338000000
  /\ ~ In (mkRange 1705334400000 1705336200000)
        (calculateAdjacentSlots 0 [meeting; lunch]
           1705327200000 1705356000000).
Proof.
  intros meeting lunch.
  assert (Ht : timed lunch 1705334400000 1705338000000)
    by (split; reflexivity).
  split; [exact Ht|].
  apply (proj2 (overlap_rule 0 lunch 1705334400000 1705338000000 Ht)).
  - right. left. reflexivity.
  - simpl. lia.
Defined.

Lemma existsb_Permutation {A} (f : A -> bool) (l1 l2 : list A) :
  Permutation l1 l2 -> existsb f l1 = existsb f l2.
Proof.
  induction 1 as [|x l l' _ IH|x y l|l l' l'' _ IH1 _ IH2]; simpl.
  - reflexivity.
  - rewrite IH. reflexivity.
  - rewrite !orb_assoc, (orb_comm (f y) (f x)). reflexivity.
  - congruence.
Qed.

(** C9.  Two event lists that are permutations of each other give the same
    result list. *)
Theorem order_independence tza events1 events2 ws we :
  Permutation events1 events2 ->
  calculateAdjacentSlots tza events1 ws we
  = calculateAdjacentSlots tza events2 ws we.
Proof.
  intros Hp. rewrite !calculateAdjacentSlots_bookable.
  f_equal. apply filter_ext. intros sl. unfold bookable.
  rewrite (existsb_Permutation (overlapsEvent sl) _ _ Hp).
  rewrite (existsb_Permutation (adjacentToEvent tza sl) _ _ Hp).
  reflexivity.
Qed.

Lemma order_independence_witness :
  let meeting := mkEvent "confirmed" None None (Some 1705330800000) None
                   (Some 1705334400000) false in
  let lunch := mkEvent "confirmed" None None (Some 1705334400000) None
                 (Some 1705338000000) false in
  Permutation [meeting; lunch] [lunch; meeting]
  /\ calculateAdjacentSlots 0 [meeting; lunch] 1705327200000 1705356000000
     = calculateAdjacentSlots 0 [lunch; meeting] 1705327200000 1705356000000.
Proof.
  intros meeting lunch.
  assert (Hp : Permutation [meeting; lunch] [lunch; meeting])
    by apply perm_swap.
  split; [exact Hp|].
  apply (order_independence 0 [meeting; lunch] [lunch; meeting]
           1705327200000 1705356000000 Hp).
Defined.

Lemma tiling_selection_wellTiled (p : Slot -> bool) ws we :
  wellTiled ws we (map slotRange (filter p (tiling ws we))).
Proof.
  split; [|apply tiling_selection_sorted].
  intros r Hr.
  destruct (tiling_selection_shape p ws we r Hr)
    as (sl & i & _ & _ & -> & -> & Hle).
  unfold slotRange, nthSlot. cbn [range_start range_end slot_start slot_end].
  pose proof slotLength_pos.
  split; [lia|]. split; [exists i; reflexivity|]. nia.
Qed.

(** C10.  Every slot returned by [calculateAdjacentSlots] or by
    [calculateAllSlots] lasts 30 minutes, starts a whole number of slot
    lengths after the start of the window and lies inside the window; the
    returned slots are in strictly increasing order of start and none runs
    into a later one. *)
Theorem result_slots_wellTiled tza events ws we :
  wellTiled ws we (calculateAdjacentSlots tza events ws we)
  /\ wellTiled ws we (calculateAllSlots tza events ws we).
Proof.
  rewrite calculateAdjacentSlots_bookable, calculateAllSlots_free.
  split; apply tiling_selection_wellTiled.
Qed.

Lemma tiling_inside ws we sl :
  In sl (tiling ws we) -> ws <= slot_start sl /\ slot_start sl < slot_end sl
                          /\ slot_end sl <= we.
Proof.
  intros H. apply in_tiling in H. destruct H as (i & -> & Hle).
  unfold nthSlot. cbn [slot_start slot_end]. pose proof slotLength_pos. nia.
Qed.

Lemma filter_all_false {A} (p : A -> bool) (l : list A) :
  (forall x, In x l -> p x = false) -> filter p l = [].
Proof.
  induction l as [|x l IH]; intros H; [reflexivity|].
  simpl. rewrite (H x (or_introl eq_refl)).
  apply IH. intros y Hy. apply H. right. exact Hy.
Qed.

(** An all-day block overlaps every slot of its window. *)
Lemma block_overlaps_tiling ws we sl :
  In sl (tiling ws we) -> overlapsEvent sl (syntheticAllDay ws we) = true.
Proof.
  intros H. destruct (tiling_inside ws we sl H) as (H1 & H2 & H3).
  unfold overlapsEvent, syntheticAllDay.
  cbn [start_dateTime end_dateTime].
  apply overlap_test. unfold overlap. lia.
Qed.

(** C4.  An all-day event whose dates [startDate] (inclusive) and [endDate]
    (exclusive) enclose the requested date is turned into one synthetic
    event that spans the window; an all-day event that does not cover the
    date adds nothing.  The synthetic block overlaps every slot of the
    window, so with it in the list [calculateAllSlots] and
    [calculateAdjacentSlots] return the empty list, and its pass over a slot
    never changes [isAdjacent]. *)
Theorem all_day_block tza target ev startDate endDate ws we :
  valid_date target ->
  calendar_day startDate -> calendar_day endDate ->
  start_date ev = Some startDate -> end_date ev = Some endDate ->
  (date_le startDate target /\ date_lt target endDate ->
   processEvent (selectedDateUTC target) ws we ev = [syntheticAllDay ws we])
  /\ (~ (date_le startDate target /\ date_lt target endDate) ->
      processEvent (selectedDateUTC target) ws we ev = [])
  /\ (forall slot, In slot (buildSlots tza ws we) ->
        map isOverlapping (markSlots tza (syntheticAllDay ws we) [slot])
        = [true])
  /\ (forall events, In (syntheticAllDay ws we) events ->
        calculateAllSlots tza events ws we = []
        /\ calculateAdjacentSlots tza events ws we = [])
  /\ (forall slot,
        map isAdjacent (markSlots tza (syntheticAllDay ws we) [slot])
        = [isAdjacent slot]).
Proof.
  intros Hv Hs He Hsd Hed.
  assert (Hc := valid_date_calendar_day target Hv).
  assert (Hy : 100 <= cd_year target) by (destruct Hv as [[? ?] _]; lia).
  assert (Hcover :
    (selectedDateUTC target >=? parseDateUTC startDate 0)
    && (selectedDateUTC target <? parseDateUTC endDate 0) = true
    <-> date_le startDate target /\ date_lt target endDate).
  { rewrite (selectedDateUTC_parse target Hy).
    rewrite andb_true_iff, Z.geb_le, Z.ltb_lt.
    rewrite (midnight_le_iff startDate target Hs Hc).
    rewrite (midnight_lt_iff target endDate Hc He). reflexivity. }
  assert (Hblock : timed (syntheticAllDay ws we) ws we) by (split; reflexivity).
  split; [|split; [|split; [|split]]].
  - intros Hin. unfold processEvent. rewrite Hsd, Hed.
    rewrite (proj2 Hcover Hin). reflexivity.
  - intros Hout. unfold processEvent. rewrite Hsd, Hed.
    destruct ((selectedDateUTC target >=? parseDateUTC startDate 0)
              && (selectedDateUTC target <? parseDateUTC endDate 0)) eqn:E;
      [|reflexivity].
    exfalso. apply Hout, Hcover. reflexivity.
  - intros slot Hin. rewrite buildSlots_tiling in Hin.
    destruct (tiling_fresh ws we slot Hin) as [Ho _].
    apply (pass_sets_overlapping tza _ ws we slot Hblock Ho).
    destruct (tiling_inside ws we slot Hin) as (H1 & H2 & H3). lia.
  - intros events Hin.
    assert (Hall : forall sl, In sl (tiling ws we) ->
                   existsb (overlapsEvent sl) events = true).
    { intros sl Hsl. apply existsb_exists.
      exists (syntheticAllDay ws we). split; [exact Hin|].
      apply block_overlaps_tiling, Hsl. }
    rewrite calculateAllSlots_free, calculateAdjacentSlots_bookable.
    rewrite !filter_all_false; [split; reflexivity| |].
    + intros sl Hsl. unfold bookable. rewrite (Hall sl Hsl). reflexivity.
    + intros sl Hsl. rewrite (Hall sl Hsl). reflexivity.
  - intros slot.
    rewrite (markSlots_single tza _ ws we slot Hblock).
    unfold markSlot, getTime, syntheticAllDay.
    cbn [isSyntheticAllDay negb map].
    destruct (isOverlapping slot); [reflexivity|].
    destruct ((slot_start slot <? we) && (slot_end slot >? ws)); reflexivity.
Qed.

Ltac concrete_date :=
  unfold valid_date, calendar_day; cbn [cd_year cd_month cd_day];
  repeat split; vm_compute; discriminate.
Lemma all_day_block_witness :
  let target := mkDate 2024 1 15 in
  let ev := mkEvent "confirmed" None (Some (mkDate 2024 1 15)) None
              (Some (mkDate 2024 1 16)) None false in
  (date_le (mkDate 2024 1 15) target /\ date_lt target (mkDate 2024 1 16))
  /\ processEvent (selectedDateUTC target) (slotsStart target)
       (slotsEnd target) ev
     = [syntheticAllDay (slotsStart target) (slotsEnd target)]
  /\ calculateAllSlots 0
       [syntheticAllDay (slotsStart target) (slotsEnd target)]
       (slotsStart target) (slotsEnd target) = [].
Proof.
  intros target ev.
  assert (Hv : valid_date target) by concrete_date.
  assert (Hs : calendar_day (mkDate 2024 1 15)) by concrete_date.
  assert (He : calendar_day (mkDate 2024 1 16)) by concrete_date.
  assert (Hcover : date_le (mkDate 2024 1 15) target
                   /\ date_lt target (mkDate 2024 1 16)).
  { split; [right; reflexivity|]. unfold date_lt.
    cbn [cd_year cd_month cd_day target]. lia. }
  pose proof (all_day_block 0 target ev (mkDate 2024 1 15) (mkDate 2024 1 16)
                (slotsStart target) (slotsEnd target) Hv Hs He
                eq_refl eq_refl) as (H1 & _ & _ & H4 & _).
  (split; [exact Hcover|]).
  (split; [exact (H1 Hcover)|]).
  exact (proj1 (H4 [syntheticAllDay (slotsStart target) (slotsEnd target)] (or_introl eq_refl))).
Defined.

Lemma noon_vs_midnight a b :
  (parseDateUTC b 0 <= parseDateUTC a 12 <-> parseDateUTC b 0 <= parseDateUTC a 0)
  /\ (parseDateUTC a 12 < parseDateUTC b 0 <-> parseDateUTC a 0 < parseDateUTC b 0).
Proof. unfold parseDateUTC. unfold_time. lia. Qed.

Lemma window_bounds c h :
  100 <= cd_year c ->
  DateUTC (cd_year c) (cd_month c - 1) (cd_day c) (h + utcOffset c) 0 0
  = wallClock c h (if isEasternTimeDST c then 4 else 5).
Proof.
  intros Hy. rewrite DateUTC_full_year by assumption.
  unfold wallClock, parseDateUTC, utcOffset. unfold_time. lia.
Qed.

(** C6.  For a valid date the resolver takes daylight saving to be in effect
    exactly from the second Sunday of March on and before the first Sunday of
    November of the year of the date, and puts the start and the end of the
    window at 09:00 and 17:00 of a clock 4 hours behind UTC under daylight
    saving and 5 hours behind UTC otherwise. *)
Theorem business_window_dst c s1 s2 :
  valid_date c ->
  secondSundayOfMarch (cd_year c) s1 ->
  firstSundayOfNovember (cd_year c) s2 ->
  (isEasternTimeDST c = true <->
   date_le (mkDate (cd_year c) 3 s1) c /\ date_lt c (mkDate (cd_year c) 11 s2))
  /\ slotsStart c = wallClock c 9 (if isEasternTimeDST c then 4 else 5)
  /\ slotsEnd c = wallClock c 17 (if isEasternTimeDST c then 4 else 5).
Proof.
  intros Hv H1 H2.
  assert (Hc := valid_date_calendar_day c Hv).
  assert (Hy : 100 <= cd_year c) by (destruct Hv as [[? ?] _]; lia).
  split; [|split; apply window_bounds; exact Hy].
  rewrite (isEasternTimeDST_sundays c s1 s2 Hv H1 H2).
  rewrite andb_true_iff, Z.geb_le, Z.ltb_lt.
  destruct (noon_vs_midnight c (mkDate (cd_year c) 3 s1)) as [N1 _].
  destruct (noon_vs_midnight c (mkDate (cd_year c) 11 s2)) as [_ N2].
  rewrite N1, N2.
  assert (Hmar : calendar_day (mkDate (cd_year c) 3 s1)).
  { destruct H1 as [Hs _]. split; cbn [cd_year cd_month cd_day]; [lia|].
    unfold DaysInMonth. lia. }
  assert (Hnov : calendar_day (mkDate (cd_year c) 11 s2)).
  { destruct H2 as [Hs _]. split; cbn [cd_year cd_month cd_day]; [lia|].
    unfold DaysInMonth. lia. }
  rewrite (midnight_le_iff _ c Hmar Hc), (midnight_lt_iff c _ Hc Hnov).
  reflexivity.
Qed.

Lemma business_window_dst_witness :
  let c := mkDate 2024 7 4 in
  valid_date c
  /\ secondSundayOfMarch 2024 10
  /\ firstSundayOfNovember 2024 3
  /\ isEasternTimeDST c = true
  /\ slotsStart c = wallClock c 9 (if isEasternTimeDST c then 4 else 5).
Proof.
  intros c.
  assert (Hv : valid_date c) by concrete_date.
  assert (H1 : secondSundayOfMarch 2024 10)
    by (split; [lia | vm_compute; reflexivity]).
  assert (H2 : firstSundayOfNovember 2024 3)
    by (split; [lia | vm_compute; reflexivity]).
  pose proof (business_window_dst c 10 3 Hv H1 H2) as (Hiff & Hs & _).
  split; [exact Hv|]. split; [exact H1|]. split; [exact H2|].
  split; [|exact Hs].
  apply (proj2 Hiff). split.
  - left. unfold date_lt. cbn [cd_year cd_month cd_day c]. lia.
  - unfold date_lt. cbn [cd_year cd_month cd_day c]. lia.
Defined.

(* ------------------------------------------------------------------ *)
(** ** Weekends *)

Lemma weekday_selectedDateUTC c :
  100 <= cd_year c -> getUTCDay (selectedDateUTC c) = weekday c.
Proof.
  intros Hy. rewrite selectedDateUTC_parse by assumption. reflexivity.
Qed.

(** X23. The day request of a Saturday or Sunday is answered with the empty
    list before any call to the calendar. *)
Lemma weekend_day_request tza c :
  valid_date c -> weekday c = 0 \/ weekday c = 6 ->
  availableSlots tza (Some c) = Respond (Json []).
Proof.
  intros Hv Hw.
  assert (Hy : 100 <= cd_year c) by (destruct Hv as [[? ?] _]; lia).
  unfold availableSlots. rewrite (weekday_selectedDateUTC c Hy).
  destruct Hw as [-> | ->]; reflexivity.
Qed.

(** X24. On a server whose zone is not behind UTC the month loop writes
    [false] for a Saturday or Sunday, whatever the events. *)
Lemma weekend_month_entry tza y m day events :
  100 <= y -> calendar_day (mkDate y m day) ->
  0 <= tza < msPerDay ->
  weekday (mkDate y m day) = 0 \/ weekday (mkDate y m day) = 6 ->
  monthDay tza y (m - 1) events day = (mkDate y m day, false).
Proof.
  intros Hy Hc Htz Hw. unfold monthDay.
  rewrite !(DateUTC_full_year y (m - 1) day 0 0 0 Hy).
  change (MakeTime 0 0 0 0) with 0.
  assert (Ht : 0 <= 0 < msPerDay) by (unfold msPerDay; lia).
  destruct (date_fields y m day 0 Hc Ht) as (HY & HM & HD & _).
  assert (Hstr : dateStrOf (MakeDate (MakeDay y (m - 1) day) 0)
                 = mkDate y m day).
  { unfold dateStrOf. rewrite HY, HM, HD. f_equal. lia. }
  assert (Hday : getDay tza (MakeDate (MakeDay y (m - 1) day) 0)
                 = weekday (mkDate y m day)).
  { rewrite weekday_MakeDay. unfold getDay, LocalTime, WeekDay.
    f_equal. f_equal. unfold_time. Z.to_euclidean_division_equations. lia. }
  rewrite Hstr, Hday. destruct Hw as [-> | ->]; reflexivity.
Qed.

(** C7, the month view on a server five or four hours behind UTC.  The loop
    asks [getDay], the weekday in the server's zone, of the UTC midnight of
    the date; west of UTC that is the weekday of the day before.
    2024-06-01 is a Saturday; with one meeting from 15:00 to 16:00 UTC that
    day and the server at UTC-4, the entry of 2024-06-01 is [true], where
    the day request of the same date answers the empty list. *)
Theorem month_weekend_local_weekday :
  let meeting := mkEvent "confirmed" None None (Some 1717254000000) None
                   (Some 1717257600000) false in
  let calendar := fun _ _ : Z => [meeting] in
  weekday (mkDate 2024 6 1) = 6
  /\ match runApi calendar (monthAvailability (-14400000) (Some 2024) (Some 6))
     with
     | Json entries => hd_error entries = Some (mkDate 2024 6 1, true)
     | Status _ _ => False
     end
  /\ runApi calendar (availableSlots (-14400000) (Some (mkDate 2024 6 1)))
     = Json [].
Proof.
  intros meeting calendar. split; [|split]; vm_compute; reflexivity.
Qed.

(* ------------------------------------------------------------------ *)
(** ** Booking *)


(** C8, a booking that runs past the window.  2024-01-15 is a Monday in
    winter; its window ends at 22:00 UTC (17:00 Eastern).  A booking from
    21:30 to 22:30 UTC ends at 17:30 Eastern, yet the check reads only the
    hour of the end and the event is inserted. *)
Theorem booking_past_window :
  let body := mkBookRequest (Some 1705354200000) (Some 1705357800000)
                "Ada" "ada@example.org" in
  slotsEnd (mkDate 2024 1 15) = 1705356000000
  /\ slotsEnd (mkDate 2024 1 15) < 1705357800000
  /\ inserted (fun _ _ => []) (book 0 body)
     = [mkNewEvent 1705354200000 1705357800000 "Ada" "ada@example.org"]
  /\ inserted (fun _ _ => []) (book (-18000000) body)
     = [mkNewEvent 1705354200000 1705357800000 "Ada" "ada@example.org"].
Proof.
  intros body. repeat split; vm_compute; reflexivity.
Qed.

(* ================================================================== *)
(** * Further properties of the engine *)
(* ================================================================== *)

(* ------------------------------------------------------------------ *)
(** ** Rounding *)

Lemma div_chain l :
  l / 3600000 = l / 60000 / 60 /\ l / 86400000 = l / 3600000 / 24
  /\ l / 1800000 = l / 60000 / 30.
Proof. rewrite !Z.div_div by lia. repeat split; reflexivity. Qed.

Lemma roundDown30_floor tza t :
  roundDown30 tza t = t - (t + tza) mod slotLength.
Proof.
  rewrite roundDown30_spec. unfold spec_roundDown, UTC, LocalTime.
  set (l := t + tza).
  assert (Hl : t = l - tza) by (unfold l; lia). clearbody l. subst t.
  change slotLength with 1800000.
  destruct (div_chain l) as (D1 & D2 & D3).
  destruct (MinFromTime l >=? 30) eqn:Hm;
    rewrite Z.geb_leb in Hm;
    rewrite ?Z.leb_le, ?Z.leb_gt in Hm;
    unfold_time; Z.to_euclidean_division_equations; lia.
Qed.

(** X1. [roundDown30] lands on a half hour of the server's clock, at most 30
    minutes before the instant and never after it; rounding twice changes
    nothing. *)
Theorem roundDown30_grid tza t :
  (roundDown30 tza t + tza) mod slotLength = 0
  /\ roundDown30 tza t <= t < roundDown30 tza t + slotLength
  /\ roundDown30 tza (roundDown30 tza t) = roundDown30 tza t.
Proof.
  rewrite !roundDown30_floor. rewrite <- roundDown30_floor.
  rewrite roundDown30_floor.
  change slotLength with 1800000.
  repeat split; Z.to_euclidean_division_equations; lia.
Qed.

Lemma roundUp30_ceil tza t :
  let l0 := (t + tza) - (t + tza) mod msPerMinute in
  roundUp30 tza t
  = (if l0 mod slotLength =? 0 then l0
     else l0 - l0 mod slotLength + slotLength) - tza.
Proof.
  rewrite roundUp30_spec. unfold spec_roundUp, UTC, LocalTime.
  set (l := t + tza). clearbody l. cbv zeta.
  change slotLength with 1800000.
  destruct (div_chain l) as (D1 & D2 & D3).
  destruct (div_chain (l - l mod msPerMinute)) as (E1 & E2 & E3).
  destruct (MinFromTime l >? 30) eqn:Hm;
    [|destruct ((MinFromTime l >? 0) && (MinFromTime l <=? 30)) eqn:Hm2;
      [apply andb_true_iff in Hm2|apply andb_false_iff in Hm2]];
    destruct ((l - l mod msPerMinute) mod 1800000 =? 0) eqn:Hg;
    rewrite ?Z.eqb_eq, ?Z.eqb_neq in Hg;
    rewrite ?Z.gtb_ltb in *;
    rewrite ?Z.ltb_lt, ?Z.ltb_ge, ?Z.leb_le, ?Z.leb_gt in *;
    unfold_time; Z.to_euclidean_division_equations; lia.
Qed.

(** X2. [roundUp30] lands on a half hour of the server's clock, less than 30
    minutes after the instant; it falls before the instant only by the
    seconds it drops, so by less than a minute; it is never before
    [roundDown30]; rounding twice changes nothing. *)
Theorem roundUp30_grid tza t :
  (roundUp30 tza t + tza) mod slotLength = 0
  /\ t - msPerMinute < roundUp30 tza t < t + slotLength
  /\ roundDown30 tza t <= roundUp30 tza t
  /\ roundUp30 tza (roundUp30 tza t) = roundUp30 tza t.
Proof.
  assert (Hgrid : forall u, (roundUp30 tza u + tza) mod slotLength = 0
                     /\ u - msPerMinute < roundUp30 tza u < u + slotLength
                     /\ roundDown30 tza u <= roundUp30 tza u).
  { intros u. rewrite roundDown30_floor. rewrite roundUp30_ceil. cbv zeta.
    change slotLength with 1800000. change msPerMinute with 60000.
    destruct (((u + tza - (u + tza) mod 60000) mod 1800000) =? 0) eqn:Hg;
      rewrite ?Z.eqb_eq, ?Z.eqb_neq in Hg;
      repeat split; Z.to_euclidean_division_equations; lia. }
  destruct (Hgrid t) as (G1 & G2 & G3).
  split; [exact G1|]. split; [exact G2|]. split; [exact G3|].
  set (r := roundUp30 tza t) in *. clearbody r.
  rewrite roundUp30_ceil. cbv zeta.
  change slotLength with 1800000 in *. change msPerMinute with 60000 in *.
  destruct (((r + tza - (r + tza) mod 60000) mod 1800000) =? 0) eqn:Hg;
    rewrite ?Z.eqb_eq, ?Z.eqb_neq in Hg;
    Z.to_euclidean_division_equations; lia.
Qed.

(* ------------------------------------------------------------------ *)
(** ** What the two slot calculators return *)

Lemma no_overlap_iff sl events :
  existsb (overlapsEvent sl) events = false <->
  (forall ev es ee, In ev events -> timed ev es ee ->
     ~ overlap (slot_start sl) (slot_end sl) es ee).
Proof.
  split.
  - intros Hex ev es ee Hin [Hs He] Hov.
    assert (Ht : existsb (overlapsEvent sl) events = true).
    { apply existsb_exists. exists ev. split; [exact Hin|].
      unfold overlapsEvent. rewrite Hs, He. apply overlap_test, Hov. }
    congruence.
  - intros H. destruct (existsb (overlapsEvent sl) events) eqn:E;
      [|reflexivity].
    apply existsb_exists in E. destruct E as (ev & Hin & Hov).
    unfold overlapsEvent in Hov.
    destruct (start_dateTime ev) as [es|] eqn:Hs; [|discriminate].
    destruct (end_dateTime ev) as [ee|] eqn:He; [|discriminate].
    apply overlap_test in Hov.
    exfalso. apply (H ev es ee Hin); [split; assumption | exact Hov].
Qed.

Lemma some_adjacent_iff tza sl events :
  existsb (adjacentToEvent tza sl) events = true <->
  (exists ev es ee,
     In ev events /\ timed ev es ee /\ isSyntheticAllDay ev = false
     /\ (slot_end sl = roundDown30 tza es
         \/ slot_start sl = roundUp30 tza ee)).
Proof.
  rewrite existsb_exists. split.
  - intros (ev & Hin & Hadj). unfold adjacentToEvent in Hadj.
    destruct (start_dateTime ev) as [es|] eqn:Hs; [|discriminate].
    destruct (end_dateTime ev) as [ee|] eqn:He; [|discriminate].
    apply andb_true_iff in Hadj. destruct Hadj as [Hsyn Heq].
    apply negb_true_iff in Hsyn. apply orb_true_iff in Heq.
    rewrite !Z.eqb_eq in Heq.
    exists ev, es, ee. repeat split; assumption.
  - intros (ev & es & ee & Hin & [Hs He] & Hsyn & Heq).
    exists ev. split; [exact Hin|].
    unfold adjacentToEvent. rewrite Hs, He, Hsyn. cbn [negb andb].
    apply orb_true_iff. rewrite !Z.eqb_eq. exact Heq.
Qed.

Lemma in_tiling_range ws we r :
  (exists sl, In sl (tiling ws we) /\ r = slotRange sl) <->
  (exists i : nat,
     r = mkRange (ws + Z.of_nat i * slotLength)
           (ws + (Z.of_nat i + 1) * slotLength)
     /\ ws + (Z.of_nat i + 1) * slotLength <= we).
Proof.
  split.
  - intros (sl & Hin & ->). apply in_tiling in Hin.
    destruct Hin as (i & -> & Hle). exists i. split; [reflexivity|exact Hle].
  - intros (i & -> & Hle). exists (nthSlot ws i). split; [|reflexivity].
    apply in_tiling. exists i. split; [reflexivity|exact Hle].
Qed.

(** X3. A window shorter than one slot, or one that ends before it starts,
    yields no slot from either calculator, whatever the events. *)
Theorem short_window_no_slots tza events ws we :
  we - ws < slotLength ->
  calculateAdjacentSlots tza events ws we = []
  /\ calculateAllSlots tza events ws we = [].
Proof.
  intros H.
  rewrite calculateAdjacentSlots_bookable, calculateAllSlots_free.
  rewrite (tiling_empty ws we) by lia. split; reflexivity.
Qed.

Lemma short_window_no_slots_witness :
  1705327200000 - 1705327200000 < slotLength
  /\ calculateAllSlots 0 [] 1705327200000 1705327200000 = [].
Proof.
  assert (H : 1705327200000 - 1705327200000 < slotLength) by reflexivity.
  split; [exact H|].
  exact (proj2 (short_window_no_slots 0 [] 1705327200000 1705327200000 H)).
Defined.

(** X4. [calculateAllSlots] returns exactly the slots of the tiling that no
    event with both instants overlaps; with no events that is every slot of
    the tiling. *)
Theorem all_slots_membership tza events ws we r :
  (In r (calculateAllSlots tza events ws we) <->
   (exists i : nat,
      r = mkRange (ws + Z.of_nat i * slotLength)
            (ws + (Z.of_nat i + 1) * slotLength)
      /\ ws + (Z.of_nat i + 1) * slotLength <= we)
   /\ (forall ev es ee, In ev events -> timed ev es ee ->
         ~ overlap (range_start r) (range_end r) es ee))
  /\ calculateAllSlots tza [] ws we = map slotRange (tiling ws we).
Proof.
  split.
  - rewrite calculateAllSlots_free, in_map_iff. split.
    + intros (sl & <- & Hsl). apply filter_In in Hsl.
      destruct Hsl as [Hin Hno]. apply negb_true_iff in Hno. split.
      * apply in_tiling_range. exists sl. auto.
      * apply (proj1 (no_overlap_iff sl events) Hno).
    + intros [Hex Hno]. apply in_tiling_range in Hex.
      destruct Hex as (sl & Hin & ->). exists sl. split; [reflexivity|].
      apply filter_In. split; [exact Hin|].
      apply negb_true_iff, no_overlap_iff. exact Hno.
  - rewrite calculateAllSlots_free. f_equal.
    induction (tiling ws we) as [|x l IH]; [reflexivity|].
    cbn [filter existsb negb] in *. rewrite IH. reflexivity.
Qed.

Lemma in_adjacent_iff tza events ws we r :
  In r (calculateAdjacentSlots tza events ws we) <->
  exists sl,
    In sl (tiling ws we) /\ r = slotRange sl
    /\ (forall ev es ee, In ev events -> timed ev es ee ->
          ~ overlap (slot_start sl) (slot_end sl) es ee)
    /\ (exists ev es ee,
          In ev events /\ timed ev es ee /\ isSyntheticAllDay ev = false
          /\ (slot_end sl = roundDown30 tza es
              \/ slot_start sl = roundUp30 tza ee)).
Proof.
  rewrite calculateAdjacentSlots_bookable, in_map_iff. split.
  - intros (sl & <- & Hsl). apply filter_In in Hsl.
    destruct Hsl as [Hin Hb]. unfold bookable in Hb.
    apply andb_true_iff in Hb. destruct Hb as [Hno Hadj].
    apply negb_true_iff in Hno. exists sl.
    split; [exact Hin|]. split; [reflexivity|]. split.
    + apply (proj1 (no_overlap_iff sl events) Hno).
    + apply (proj1 (some_adjacent_iff tza sl events) Hadj).
  - intros (sl & Hin & -> & Hno & Hadj). exists sl. split; [reflexivity|].
    apply filter_In. split; [exact Hin|]. unfold bookable.
    apply andb_true_iff. split.
    + apply negb_true_iff, no_overlap_iff. exact Hno.
    + apply some_adjacent_iff. exact Hadj.
Qed.

(** X5. [calculateAdjacentSlots] returns exactly the slots of the tiling that
    no event overlaps and that border an event that is not an all-day block:
    the slot ends at the start of the event rounded down, or starts at the
    end of the event rounded up. *)
Theorem adjacent_slots_membership tza events ws we r :
  In r (calculateAdjacentSlots tza events ws we) <->
  (exists i : nat,
     r = mkRange (ws + Z.of_nat i * slotLength)
           (ws + (Z.of_nat i + 1) * slotLength)
     /\ ws + (Z.of_nat i + 1) * slotLength <= we)
  /\ (forall ev es ee, In ev events -> timed ev es ee ->
        ~ overlap (range_start r) (range_end r) es ee)
  /\ (exists ev es ee,
        In ev events /\ timed ev es ee /\ isSyntheticAllDay ev = false
        /\ (range_end r = roundDown30 tza es
            \/ range_start r = roundUp30 tza ee)).
Proof.
  rewrite in_adjacent_iff. split.
  - intros (sl & Hin & -> & Hno & Hadj). split; [|split].
    + apply in_tiling_range. exists sl. auto.
    + exact Hno.
    + exact Hadj.
  - intros (Hex & Hno & Hadj). apply in_tiling_range in Hex.
    destruct Hex as (sl & Hin & ->). exists sl. auto.
Qed.

(** X6. Every slot offered as adjacent is also among the free slots. *)
Theorem adjacent_within_all tza events ws we :
  incl (calculateAdjacentSlots tza events ws we)
       (calculateAllSlots tza events ws we).
Proof.
  intros r. rewrite calculateAdjacentSlots_bookable, calculateAllSlots_free.
  rewrite !in_map_iff. intros (sl & <- & Hsl). exists sl.
  split; [reflexivity|]. apply filter_In in Hsl. apply filter_In.
  destruct Hsl as [Hin Hb]. split; [exact Hin|].
  unfold bookable in Hb. apply andb_true_iff in Hb. tauto.
Qed.

Lemma existsb_same_elements {A} (f : A -> bool) (l1 l2 : list A) :
  (forall x, In x l1 <-> In x l2) -> existsb f l1 = existsb f l2.
Proof.
  intros H.
  destruct (existsb f l1) eqn:E1; destruct (existsb f l2) eqn:E2;
    try reflexivity.
  - apply existsb_exists in E1. destruct E1 as (x & Hx & Hf).
    assert (existsb f l2 = true)
      by (apply existsb_exists; exists x; split; [apply H, Hx|exact Hf]).
    congruence.
  - apply existsb_exists in E2. destruct E2 as (x & Hx & Hf).
    assert (existsb f l1 = true)
      by (apply existsb_exists; exists x; split; [apply H, Hx|exact Hf]).
    congruence.
Qed.

(** X7. Both calculators depend only on which events are in the list: two
    lists with the same members, in any order and with any repetitions, give
    the same slots. *)
Theorem same_events_same_slots tza events1 events2 ws we :
  (forall ev, In ev events1 <-> In ev events2) ->
  calculateAdjacentSlots tza events1 ws we
  = calculateAdjacentSlots tza events2 ws we
  /\ calculateAllSlots tza events1 ws we
     = calculateAllSlots tza events2 ws we.
Proof.
  intros H.
  rewrite !calculateAdjacentSlots_bookable, !calculateAllSlots_free.
  split; f_equal; apply filter_ext; intros sl; unfold bookable;
    rewrite (existsb_same_elements (overlapsEvent sl) _ _ H);
    rewrite ?(existsb_same_elements (adjacentToEvent tza sl) _ _ H);
    reflexivity.
Qed.

Lemma same_events_same_slots_witness :
  let meeting := mkEvent "confirmed" None None (Some 1705330800000) None
                   (Some 1705334400000) false in
  let lunch := mkEvent "confirmed" None None (Some 1705334400000) None
                 (Some 1705338000000) false in
  (forall ev, In ev [meeting; meeting; lunch] <-> In ev [lunch; meeting])
  /\ calculateAdjacentSlots 0 [meeting; meeting; lunch]
       1705327200000 1705356000000
     = calculateAdjacentSlots 0 [lunch; meeting] 1705327200000 1705356000000.
Proof.
  intros meeting lunch.
  assert (H : forall ev,
            In ev [meeting; meeting; lunch] <-> In ev [lunch; meeting])
    by (intros ev; simpl; tauto).
  split; [exact H|].
  exact (proj1 (same_events_same_slots 0 [meeting; meeting; lunch]
                  [lunch; meeting] 1705327200000 1705356000000 H)).
Defined.

Lemma existsb_hasBothInstants (f : CalEvent -> bool) events :
  (forall ev, hasBothInstants ev = false -> f ev = false) ->
  existsb f (filter hasBothInstants events) = existsb f events.
Proof.
  intros H. induction events as [|ev events IH]; [reflexivity|].
  simpl. destruct (hasBothInstants ev) eqn:E; simpl; rewrite IH;
    [reflexivity|]. rewrite (H ev E). reflexivity.
Qed.

(** X8. Events that lack a start or an end instant count for nothing:
    dropping them from the list changes neither result. *)
Theorem untimed_events_ignored tza events ws we :
  calculateAdjacentSlots tza (filter hasBothInstants events) ws we
  = calculateAdjacentSlots tza events ws we
  /\ calculateAllSlots tza (filter hasBothInstants events) ws we
     = calculateAllSlots tza events ws we.
Proof.
  rewrite !calculateAdjacentSlots_bookable, !calculateAllSlots_free.
  assert (Ho : forall sl ev, hasBothInstants ev = false ->
               overlapsEvent sl ev = false).
  { intros sl ev. unfold hasBothInstants, overlapsEvent.
    destruct (start_dateTime ev), (end_dateTime ev);
      try discriminate; reflexivity. }
  assert (Ha : forall sl ev, hasBothInstants ev = false ->
               adjacentToEvent tza sl ev = false).
  { intros sl ev. unfold hasBothInstants, adjacentToEvent.
    destruct (start_dateTime ev), (end_dateTime ev);
      try discriminate; reflexivity. }
  split; f_equal; apply filter_ext; intros sl; unfold bookable;
    rewrite (existsb_hasBothInstants _ events (Ho sl));
    rewrite ?(existsb_hasBothInstants _ events (Ha sl)); reflexivity.
Qed.

(** X9. More events can only take free slots away. *)
Theorem more_events_fewer_free_slots tza events more ws we :
  incl (calculateAllSlots tza (events ++ more) ws we)
       (calculateAllSlots tza events ws we).
Proof.
  intros r. rewrite !calculateAllSlots_free, !in_map_iff.
  intros (sl & <- & Hsl). exists sl. split; [reflexivity|].
  apply filter_In in Hsl. apply filter_In.
  destruct Hsl as [Hin Hno]. split; [exact Hin|].
  rewrite existsb_app in Hno. apply negb_true_iff in Hno.
  apply orb_false_iff in Hno. apply negb_true_iff. tauto.
Qed.

(* ------------------------------------------------------------------ *)
(** ** How many slots a day can offer *)

Lemma filter_orb_length {A} (p q : A -> bool) (l : list A) :
  (List.length (filter (fun x => p x || q x) l)
   <= List.length (filter p l) + List.length (filter q l))%nat.
Proof.
  induction l as [|x l IH]; simpl; [lia|].
  destruct (p x), (q x); simpl; lia.
Qed.

Lemma filter_weaker_length {A} (p q : A -> bool) (l : list A) :
  (forall x, p x = true -> q x = true) ->
  (List.length (filter p l) <= List.length (filter q l))%nat.
Proof.
  intros H. induction l as [|x l IH]; simpl; [lia|].
  destruct (p x) eqn:E; [rewrite (H x E); simpl; lia|].
  destruct (q x); simpl; lia.
Qed.

Lemma filter_existsb_length {A B} (f : A -> B -> bool) (ys : list B)
    (l : list A) (n : nat) :
  (forall y, (List.length (filter (fun x => f x y) l) <= n)%nat) ->
  (List.length (filter (fun x => existsb (f x) ys) l)
   <= n * List.length ys)%nat.
Proof.
  intros H. induction ys as [|y ys IH]; simpl.
  - rewrite filter_all_false by reflexivity. simpl. lia.
  - pose proof (filter_orb_length (fun x => f x y)
                  (fun x => existsb (f x) ys) l).
    pose proof (H y). lia.
Qed.

(** At most one index of a duplicate-free list is sent to a given value by
    an injective function. *)
Lemma filter_injective_length (g : nat -> Z) (c : Z) (l : list nat) :
  (forall a b, g a = g b -> a = b) -> NoDup l ->
  (List.length (filter (fun i => (g i =? c)%Z) l) <= 1)%nat.
Proof.
  intros Hinj. induction 1 as [|x l Hx Hnd IH]; simpl; [lia|].
  destruct (Z.eqb_spec (g x) c) as [E|E]; [|exact IH].
  rewrite filter_all_false; [simpl; lia|].
  intros y Hy. apply Z.eqb_neq. intros Ey.
  apply Hx. rewrite (Hinj x y) by congruence. exact Hy.
Qed.

Lemma tiling_at_most_one (proj : Slot -> Z) ws we c :
  (forall a b, proj (nthSlot ws a) = proj (nthSlot ws b) -> a = b) ->
  (List.length (filter (fun sl => (proj sl =? c)%Z) (tiling ws we)) <= 1)%nat.
Proof.
  intros Hinj. unfold tiling. rewrite filter_map_comm, length_map.
  apply (filter_injective_length (fun i => proj (nthSlot ws i)) c).
  - exact Hinj.
  - apply seq_NoDup.
Qed.

Lemma nthSlot_start_injective ws a b :
  slot_start (nthSlot ws a) = slot_start (nthSlot ws b) -> a = b.
Proof.
  unfold nthSlot. cbn [slot_start]. change slotLength with 1800000. lia.
Qed.

Lemma nthSlot_end_injective ws a b :
  slot_end (nthSlot ws a) = slot_end (nthSlot ws b) -> a = b.
Proof.
  unfold nthSlot. cbn [slot_end]. change slotLength with 1800000. lia.
Qed.

(** X10.  An event makes at most two slots adjacent, the one before it and the one
    after it, so a day with [n] events offers at most [2 * n] slots. *)
Theorem at_most_two_slots_per_event tza events ws we :
  (List.length (calculateAdjacentSlots tza events ws we)
   <= 2 * List.length events)%nat.
Proof.
  rewrite calculateAdjacentSlots_bookable, length_map.
  eapply Nat.le_trans.
  - apply (filter_weaker_length _
             (fun sl => existsb (adjacentToEvent tza sl) events)).
    intros sl Hb. unfold bookable in Hb. apply andb_true_iff in Hb. tauto.
  - apply (filter_existsb_length (adjacentToEvent tza) events).
    intros ev. unfold adjacentToEvent.
    destruct (start_dateTime ev) as [es|];
      [|rewrite filter_all_false by reflexivity; simpl; lia].
    destruct (end_dateTime ev) as [ee|];
      [|rewrite filter_all_false by reflexivity; simpl; lia].
    eapply Nat.le_trans.
    + apply (filter_weaker_length _
               (fun sl => (slot_end sl =? roundDown30 tza es)
                          || (slot_start sl =? roundUp30 tza ee))).
      intros sl H. apply andb_true_iff in H. tauto.
    + pose proof (filter_orb_length
                    (fun sl => slot_end sl =? roundDown30 tza es)
                    (fun sl => slot_start sl =? roundUp30 tza ee)
                    (tiling ws we)).
      pose proof (tiling_at_most_one slot_end ws we (roundDown30 tza es)
                    (nthSlot_end_injective ws)).
      pose proof (tiling_at_most_one slot_start ws we (roundUp30 tza ee)
                    (nthSlot_start_injective ws)).
      lia.
Qed.

Lemma on_grid_fixed tza t :
  (t + tza) mod slotLength = 0 ->
  roundDown30 tza t = t /\ roundUp30 tza t = t.
Proof.
  intros H. rewrite roundDown30_floor, roundUp30_ceil. cbv zeta.
  change slotLength with 1800000 in *. change msPerMinute with 60000.
  assert (Hm : (t + tza) mod 60000 = 0)
    by (Z.to_euclidean_division_equations; lia).
  rewrite Hm, Z.sub_0_r, H. simpl. lia.
Qed.

(** X11. A meeting that starts and ends on slots of the window (the window
    itself lying on half hours of the server's clock) offers exactly its two
    neighbours: the slot that ends where it starts, when the window has one,
    and the slot that starts where it ends, when the window has one. *)
Theorem aligned_meeting_neighbours tza ev ws we (i j : nat) r :
  (ws + tza) mod slotLength = 0 ->
  (i < j)%nat ->
  ws + Z.of_nat j * slotLength <= we ->
  timed ev (ws + Z.of_nat i * slotLength) (ws + Z.of_nat j * slotLength) ->
  isSyntheticAllDay ev = false ->
  (In r (calculateAdjacentSlots tza [ev] ws we) <->
   ((1 <= i)%nat
    /\ r = mkRange (ws + (Z.of_nat i - 1) * slotLength)
             (ws + Z.of_nat i * slotLength))
   \/ (ws + (Z.of_nat j + 1) * slotLength <= we
       /\ r = mkRange (ws + Z.of_nat j * slotLength)
                (ws + (Z.of_nat j + 1) * slotLength))).
Proof.
  intros Hgrid Hij Hwe Ht Hsyn.
  set (es := ws + Z.of_nat i * slotLength) in *.
  set (ee := ws + Z.of_nat j * slotLength) in *.
  assert (Hes : roundDown30 tza es = es).
  { apply on_grid_fixed. unfold es. change slotLength with 1800000 in *.
    Z.to_euclidean_division_equations. lia. }
  assert (Hee : roundUp30 tza ee = ee).
  { apply on_grid_fixed. unfold ee. change slotLength with 1800000 in *.
    Z.to_euclidean_division_equations. lia. }
  rewrite in_adjacent_iff. split.
  - intros (sl & Hin & -> & Hno & (ev' & es' & ee' & Hev & Ht' & _ & Heq)).
    apply in_tiling in Hin. destruct Hin as (k & -> & Hk).
    destruct Hev as [<-|[]].
    destruct Ht as [Hs He], Ht' as [Hs' He'].
    assert (es' = es) by congruence. assert (ee' = ee) by congruence.
    subst es' ee'. rewrite Hes, Hee in Heq.
    unfold slotRange, nthSlot in *. cbn [slot_start slot_end] in *.
    unfold es, ee in Heq. change slotLength with 1800000 in *.
    destruct Heq as [Heq|Heq].
    + left. split; [lia|]. f_equal; lia.
    + right. assert (k = j) by lia. subst k. split; [lia|reflexivity].
  - assert (Hone : forall sl,
              ~ overlap (slot_start sl) (slot_end sl) es ee ->
              forall ev' es' ee', In ev' [ev] -> timed ev' es' ee' ->
              ~ overlap (slot_start sl) (slot_end sl) es' ee').
    { intros sl Hn ev' es' ee' [<-|[]] Ht'.
      destruct Ht as [Hs He], Ht' as [Hs' He'].
      assert (es' = es) by congruence. assert (ee' = ee) by congruence.
      subst es' ee'. exact Hn. }
    intros [[Hi ->]|[Hj ->]].
    + exists (nthSlot ws (i - 1)). split; [|split; [|split]].
      * apply in_tiling. exists (i - 1)%nat. split; [reflexivity|].
        change slotLength with 1800000 in *. lia.
      * unfold slotRange, nthSlot. cbn [slot_start slot_end].
        unfold es. change slotLength with 1800000. f_equal; lia.
      * apply Hone. unfold overlap, nthSlot. cbn [slot_start slot_end].
        unfold es. change slotLength with 1800000 in *. lia.
      * exists ev, es, ee. split; [left; reflexivity|].
        split; [exact Ht|]. split; [exact Hsyn|].
        left. rewrite Hes. unfold nthSlot. cbn [slot_end]. unfold es.
        change slotLength with 1800000. lia.
    + exists (nthSlot ws j). split; [|split; [|split]].
      * apply in_tiling. exists j. split; [reflexivity|exact Hj].
      * reflexivity.
      * apply Hone. unfold overlap, nthSlot. cbn [slot_start slot_end].
        unfold ee. change slotLength with 1800000 in *. lia.
      * exists ev, es, ee. split; [left; reflexivity|].
        split; [exact Ht|]. split; [exact Hsyn|].
        right. rewrite Hee. reflexivity.
Qed.

Lemma aligned_meeting_neighbours_witness :
  let ev := mkEvent "confirmed" None None (Some 1705330800000) None
              (Some 1705334400000) false in
  (1705327200000 + 0) mod slotLength = 0
  /\ In (mkRange (1705327200000 + (Z.of_nat 2 - 1) * slotLength)
           (1705327200000 + Z.of_nat 2 * slotLength))
        (calculateAdjacentSlots 0 [ev] 1705327200000 1705356000000).
Proof.
  intros ev.
  assert (Hg : (1705327200000 + 0) mod slotLength = 0) by reflexivity.
  assert (Hij : (2 < 4)%nat) by lia.
  assert (Hwe : 1705327200000 + Z.of_nat 4 * slotLength <= 1705356000000)
    by (vm_compute; discriminate).
  assert (Ht : timed ev (1705327200000 + Z.of_nat 2 * slotLength)
                 (1705327200000 + Z.of_nat 4 * slotLength))
    by (split; reflexivity).
  split; [exact Hg|].
  exact (proj2 (aligned_meeting_neighbours 0 ev 1705327200000 1705356000000
                  2 4 _ Hg Hij Hwe Ht eq_refl)
           (or_introl (conj (le_S 1 1 (le_n 1)) eq_refl))).
Defined.

(* ================================================================== *)
(** * Further properties of the business window *)
(* ================================================================== *)

Lemma DateUTC_hours year month date h1 h2 :
  DateUTC year month date h2 0 0 - DateUTC year month date h1 0 0
  = (h2 - h1) * msPerHour.
Proof. unfold DateUTC, MakeDate, MakeTime. lia. Qed.

Lemma DateUTC_next_day year month date h :
  DateUTC year month (date + 1) h 0 0 = DateUTC year month date h 0 0 + msPerDay.
Proof. unfold DateUTC, MakeDate, MakeDay. lia. Qed.

Lemma business_day_window_length c :
  (slotsEnd c - slotsStart c) / slotLength = 16
  /\ slotsStart c < slotsEnd c.
Proof.
  assert (H8 : slotsEnd c - slotsStart c = 8 * msPerHour).
  { unfold slotsEnd, slotsStart. rewrite DateUTC_hours. lia. }
  split; [rewrite H8; reflexivity|].
  unfold msPerHour in H8. lia.
Qed.

(** X12. For every valid date the window of slots is 8 hours long and holds
    16 candidate slots; the window of the query is the 24 hours that start 9
    hours before the first slot, so the slots lie inside it. *)
Theorem business_day_window tza c :
  valid_date c ->
  slotsEnd c - slotsStart c = 8 * msPerHour
  /\ queryEnd c - queryStart c = msPerDay
  /\ slotsStart c - queryStart c = 9 * msPerHour
  /\ List.length (buildSlots tza (slotsStart c) (slotsEnd c)) = 16%nat.
Proof.
  intros _.
  assert (H8 : slotsEnd c - slotsStart c = 8 * msPerHour).
  { unfold slotsEnd, slotsStart. rewrite DateUTC_hours. lia. }
  split; [exact H8|]. split; [|split].
  - unfold queryEnd, queryStart. rewrite DateUTC_next_day. lia.
  - unfold slotsStart, queryStart. rewrite DateUTC_hours. lia.
  - rewrite buildSlots_tiling. unfold tiling.
    rewrite length_map, length_seq, H8. reflexivity.
Qed.

Lemma business_day_window_witness :
  valid_date (mkDate 2024 3 11)
  /\ List.length (buildSlots 0 (slotsStart (mkDate 2024 3 11))
                    (slotsEnd (mkDate 2024 3 11))) = 16%nat.
Proof.
  assert (Hv : valid_date (mkDate 2024 3 11)) by concrete_date.
  split; [exact Hv|].
  exact (proj2 (proj2 (proj2 (business_day_window 0 (mkDate 2024 3 11) Hv)))).
Defined.

Lemma sundays_exist y :
  exists s1 s2, secondSundayOfMarch y s1 /\ firstSundayOfNovember y s2.
Proof.
  exists (1 + Z.rem (7 - (MakeDay y 2 1 + 4) mod 7) 7 + 7),
         (1 + Z.rem (7 - (MakeDay y 10 1 + 4) mod 7) 7).
  unfold secondSundayOfMarch, firstSundayOfNovember.
  rewrite !weekday_MakeDay.
  change (3 - 1) with 2. change (11 - 1) with 10.
  set (D3 := MakeDay y 2 1). set (D11 := MakeDay y 10 1).
  rewrite (MakeDay_date y 2), (MakeDay_date y 10).
  change (MakeDay y 2 1) with D3. change (MakeDay y 10 1) with D11.
  clearbody D3 D11.
  rewrite !Z.rem_mod_nonneg
    by (try pose proof (Z.mod_pos_bound (D3 + 4) 7);
        try pose proof (Z.mod_pos_bound (D11 + 4) 7); lia).
  repeat split; Z.to_euclidean_division_equations; lia.
Qed.

Lemma isEasternTimeDST_dates c s1 s2 :
  valid_date c ->
  secondSundayOfMarch (cd_year c) s1 ->
  firstSundayOfNovember (cd_year c) s2 ->
  (isEasternTimeDST c = true <->
   date_le (mkDate (cd_year c) 3 s1) c /\ date_lt c (mkDate (cd_year c) 11 s2)).
Proof.
  intros Hv H1 H2.
  assert (Hc := valid_date_calendar_day c Hv).
  rewrite (isEasternTimeDST_sundays c s1 s2 Hv H1 H2).
  rewrite andb_true_iff, Z.geb_le, Z.ltb_lt.
  destruct (noon_vs_midnight c (mkDate (cd_year c) 3 s1)) as [N1 _].
  destruct (noon_vs_midnight c (mkDate (cd_year c) 11 s2)) as [_ N2].
  rewrite N1, N2.
  assert (Hmar : calendar_day (mkDate (cd_year c) 3 s1)).
  { destruct H1 as [Hs _]. split; cbn [cd_year cd_month cd_day]; [lia|].
    unfold DaysInMonth. lia. }
  assert (Hnov : calendar_day (mkDate (cd_year c) 11 s2)).
  { destruct H2 as [Hs _]. split; cbn [cd_year cd_month cd_day]; [lia|].
    unfold DaysInMonth. lia. }
  rewrite (midnight_le_iff _ c Hmar Hc), (midnight_lt_iff c _ Hc Hnov).
  reflexivity.
Qed.

(** X13. For a valid date, daylight saving is on throughout April to October
    and off throughout December, January and February: the offset used for
    the window is 4 hours in the first case and 5 in the second. *)
Theorem dst_by_month c :
  valid_date c ->
  (4 <= cd_month c <= 10 -> isEasternTimeDST c = true /\ utcOffset c = 4)
  /\ (cd_month c <= 2 \/ cd_month c = 12 ->
      isEasternTimeDST c = false /\ utcOffset c = 5).
Proof.
  intros Hv.
  destruct (sundays_exist (cd_year c)) as (s1 & s2 & H1 & H2).
  pose proof (isEasternTimeDST_dates c s1 s2 Hv H1 H2) as Hiff.
  destruct H1 as [R1 _], H2 as [R2 _].
  unfold utcOffset. split.
  - intros Hm.
    assert (E : isEasternTimeDST c = true).
    { apply Hiff. unfold date_le, date_lt. cbn [cd_year cd_month cd_day].
      split; [left|]; right; split; try reflexivity; left; lia. }
    rewrite E. auto.
  - intros Hm.
    assert (E : isEasternTimeDST c = false).
    { destruct (isEasternTimeDST c) eqn:E; [|reflexivity].
      destruct (proj1 Hiff eq_refl) as [Hle Hlt].
      unfold date_le, date_lt in Hle, Hlt.
      cbn [cd_year cd_month cd_day] in Hle, Hlt.
      destruct Hle as [Hle|Hle];
        [|rewrite <- Hle in Hm; cbn [cd_month] in Hm; lia].
      lia. }
    rewrite E. auto.
Qed.

Lemma dst_by_month_witness :
  valid_date (mkDate 2025 8 19)
  /\ isEasternTimeDST (mkDate 2025 8 19) = true.
Proof.
  assert (Hv : valid_date (mkDate 2025 8 19)) by concrete_date.
  split; [exact Hv|].
  exact (proj1 (proj1 (dst_by_month (mkDate 2025 8 19) Hv)
                  (conj (Zle_bool_imp_le 4 8 eq_refl)
                        (Zle_bool_imp_le 8 10 eq_refl)))).
Defined.

(* ================================================================== *)
(** * Further properties of the normalisation and of the day request *)
(* ================================================================== *)

Lemma processEvent_shape sel ws we raw ev :
  ws < we ->
  In ev (processEvent sel ws we raw) ->
  (ev = syntheticAllDay ws we \/ ev = raw)
  /\ exists es ee, timed ev es ee /\ es < we /\ ee > ws.
Proof.
  intros Hw. unfold processEvent.
  destruct (start_date raw) as [sd|].
  - destruct (end_date raw) as [ed|]; [|intros []].
    destruct ((sel >=? parseDateUTC sd 0) && (sel <? parseDateUTC ed 0));
      [|intros []].
    intros [<-|[]]. split; [left; reflexivity|].
    exists ws, we. repeat split; lia.
  - destruct (start_dateTime raw) as [es|] eqn:Hs; [|intros []].
    destruct (end_dateTime raw) as [ee|] eqn:He; [|intros []].
    destruct ((es <? we) && (ee >? ws)) eqn:E; [|intros []].
    intros [<-|[]]. split; [right; reflexivity|].
    apply overlap_test in E. unfold overlap in E.
    exists es, ee. repeat split; tauto || lia.
Qed.

(** X14. Every event the normalisation hands to the engine has both instants,
    so the engine skips none of them, and reaches into the window: it starts
    before the window ends and ends after the window starts. It is the block
    of the whole window, or a raw event passed on unchanged. *)
Theorem processed_events_shape sel ws we rawEvents ev :
  ws < we ->
  In ev (processEvents sel ws we rawEvents) ->
  (ev = syntheticAllDay ws we \/ In ev rawEvents)
  /\ hasBothInstants ev = true
  /\ exists es ee, timed ev es ee /\ es < we /\ ee > ws.
Proof.
  intros Hw Hin. unfold processEvents in Hin. apply in_flat_map in Hin.
  destruct Hin as (raw & Hraw & Hev).
  destruct (processEvent_shape sel ws we raw ev Hw Hev)
    as [Hor (es & ee & Ht & Hlo & Hhi)].
  split; [destruct Hor as [->| ->]; auto|]. split.
  - destruct Ht as [Hs He]. unfold hasBothInstants. rewrite Hs, He.
    reflexivity.
  - exists es, ee. auto.
Qed.

Lemma processed_events_shape_witness :
  let meeting := mkEvent "confirmed" None None (Some 1705330800000) None
                   (Some 1705334400000) false in
  1705327200000 < 1705356000000
  /\ hasBothInstants meeting = true.
Proof.
  intros meeting.
  assert (Hw : 1705327200000 < 1705356000000) by reflexivity.
  split; [exact Hw|].
  exact (proj1 (proj2 (processed_events_shape 0 1705327200000 1705356000000
                         [meeting] meeting Hw (or_introl eq_refl)))).
Defined.

Lemma tiling_filter_length (p : Slot -> bool) ws we :
  (List.length (map slotRange (filter p (tiling ws we)))
   <= Z.to_nat ((we - ws) / slotLength))%nat.
Proof.
  rewrite length_map.
  eapply Nat.le_trans; [apply filter_length_le|].
  unfold tiling. rewrite length_map, length_seq. lia.
Qed.

(** X15. Whatever the calendar holds, the day request of a valid date answers
    with a list of slots, never an error: at most 16 slots of 30 minutes, all
    inside the window of the date, in increasing order and disjoint; it asks
    the calendar at most once and inserts nothing. *)
Theorem day_response_in_business_hours tza c calendar :
  valid_date c ->
  exists slots,
    runApi calendar (availableSlots tza (Some c)) = Json slots
    /\ wellTiled (slotsStart c) (slotsEnd c) slots
    /\ (List.length slots <= 16)%nat
    /\ (List.length (listings calendar (availableSlots tza (Some c))) <= 1)%nat
    /\ inserted calendar (availableSlots tza (Some c)) = [].
Proof.
  intros _. unfold availableSlots.
  destruct ((getUTCDay (selectedDateUTC c) =? 0)
            || (getUTCDay (selectedDateUTC c) =? 6)).
  - exists []. cbn [runApi listings inserted List.length].
    split; [reflexivity|]. split.
    + split; [intros r []|constructor].
    + repeat split; lia.
  - cbn [runApi listings inserted List.length].
    eexists. split; [reflexivity|].
    rewrite calculateAdjacentSlots_bookable. split; [|split].
    + apply tiling_selection_wellTiled.
    + eapply Nat.le_trans; [apply tiling_filter_length|].
      destruct (business_day_window_length c) as [-> _]. reflexivity.
    + split; [lia|reflexivity].
Qed.

Lemma day_response_in_business_hours_witness :
  let meeting := mkEvent "confirmed" None None (Some 1705330800000) None
                   (Some 1705334400000) false in
  valid_date (mkDate 2024 1 15)
  /\ exists slots,
       runApi (fun _ _ => [meeting])
         (availableSlots 0 (Some (mkDate 2024 1 15))) = Json slots
       /\ (List.length slots <= 16)%nat.
Proof.
  intros meeting.
  assert (Hv : valid_date (mkDate 2024 1 15)) by concrete_date.
  split; [exact Hv|].
  destruct (day_response_in_business_hours 0 (mkDate 2024 1 15)
              (fun _ _ => [meeting]) Hv) as (slots & Hr & _ & Hl & _).
  exists slots. split; [exact Hr|exact Hl].
Defined.

Lemma covering_all_day_processed target ev sd ed ws we :
  valid_date target -> calendar_day sd -> calendar_day ed ->
  start_date ev = Some sd -> end_date ev = Some ed ->
  date_le sd target -> date_lt target ed ->
  processEvent (selectedDateUTC target) ws we ev = [syntheticAllDay ws we].
Proof.
  intros Hv Hs He Hsd Hed Hle Hlt.
  assert (Hc := valid_date_calendar_day target Hv).
  assert (Hy : 100 <= cd_year target) by (destruct Hv as [[? ?] _]; lia).
  unfold processEvent. rewrite Hsd, Hed.
  rewrite (selectedDateUTC_parse target Hy).
  apply (midnight_le_iff sd target Hs Hc) in Hle.
  apply (midnight_lt_iff target ed Hc He) in Hlt.
  apply Z.geb_le in Hle. apply Z.ltb_lt in Hlt.
  rewrite Hle, Hlt. reflexivity.
Qed.

Lemma block_in_list_no_slots tza events ws we :
  In (syntheticAllDay ws we) events ->
  calculateAdjacentSlots tza events ws we = [].
Proof.
  intros Hin. rewrite calculateAdjacentSlots_bookable.
  rewrite filter_all_false; [reflexivity|].
  intros sl Hsl. unfold bookable.
  assert (Hex : existsb (overlapsEvent sl) events = true).
  { apply existsb_exists. exists (syntheticAllDay ws we).
    split; [exact Hin|]. apply block_overlaps_tiling, Hsl. }
  rewrite Hex. reflexivity.
Qed.

(** X16. When the calendar answers the day request with a busy all-day event
    whose dates enclose the requested date, the day offers no slot, whatever
    else the calendar holds. *)
Theorem day_blocked_by_all_day tza c calendar ev sd ed :
  valid_date c -> calendar_day sd -> calendar_day ed ->
  In ev (calendar (queryStart c) (queryEnd c)) ->
  isBusy ev = true ->
  start_date ev = Some sd -> end_date ev = Some ed ->
  date_le sd c -> date_lt c ed ->
  runApi calendar (availableSlots tza (Some c)) = Json [].
Proof.
  intros Hv Hs He Hin Hbusy Hsd Hed Hle Hlt.
  unfold availableSlots.
  destruct ((getUTCDay (selectedDateUTC c) =? 0)
            || (getUTCDay (selectedDateUTC c) =? 6)); [reflexivity|].
  cbn [runApi]. f_equal.
  apply block_in_list_no_slots.
  unfold processEvents. apply in_flat_map. exists ev. split.
  - apply filter_In. split; assumption.
  - rewrite (covering_all_day_processed c ev sd ed _ _ Hv Hs He Hsd Hed Hle Hlt).
    left. reflexivity.
Qed.

Lemma day_blocked_by_all_day_witness :
  let c := mkDate 2024 1 15 in
  let holiday := mkEvent "confirmed" None (Some (mkDate 2024 1 15)) None
                   (Some (mkDate 2024 1 16)) None false in
  let meeting := mkEvent "confirmed" None None (Some 1705330800000) None
                   (Some 1705334400000) false in
  let calendar := fun _ _ : Z => [meeting; holiday] in
  valid_date c
  /\ runApi calendar (availableSlots 0 (Some c)) = Json [].
Proof.
  intros c holiday meeting calendar.
  assert (Hv : valid_date c) by concrete_date.
  assert (Hs : calendar_day (mkDate 2024 1 15)) by concrete_date.
  assert (He : calendar_day (mkDate 2024 1 16)) by concrete_date.
  assert (Hle : date_le (mkDate 2024 1 15) c) by (right; reflexivity).
  assert (Hlt : date_lt c (mkDate 2024 1 16)).
  { unfold date_lt. cbn [cd_year cd_month cd_day c]. lia. }
  split; [exact Hv|].
  exact (day_blocked_by_all_day 0 c calendar holiday (mkDate 2024 1 15)
           (mkDate 2024 1 16) Hv Hs He (or_intror (or_introl eq_refl))
           eq_refl eq_refl eq_refl Hle Hlt).
Defined.

(* ================================================================== *)
(** * Further properties of the month request *)
(* ================================================================== *)

Ltac literal_div12 :=
  repeat match goal with
         | |- context [Z.pos ?a / 12] =>
             let v := eval vm_compute in (Z.pos a / 12) in
             change (Z.pos a / 12) with v
         | |- context [Z.pos ?a mod 12] =>
             let v := eval vm_compute in (Z.pos a mod 12) in
             change (Z.pos a mod 12) with v
         end.

(** Day 0 of the next month is the last day of the month. *)
Lemma MakeDay_day0 y m :
  1 <= m <= 12 -> MakeDay y m 0 = MakeDay y (m - 1) (DaysInMonth y m).
Proof.
  intros Hm.
  assert (H12 : MakeDay y 12 0 = DayFromYear (y + 1) - 1).
  { unfold MakeDay. change (12 / 12) with 1. change (12 mod 12) with 0.
    cbv beta iota zeta delta [DaysBeforeMonth]. lia. }
  month_cases m; try (rewrite H12, DayFromYear_succ);
    unfold MakeDay; literal_div12; rewrite ?Z.add_0_r;
    leap_cases y; lia.
Qed.

Lemma daysInMonth_computed tza y m :
  100 <= y -> 1 <= m <= 12 ->
  getDate tza (newDateLocal tza y m 0) = DaysInMonth y m.
Proof.
  intros Hy Hm. unfold getDate, newDateLocal, LocalTime, UTC.
  destruct (Z.leb_spec y 99); [lia|]. rewrite andb_false_r.
  replace (MakeDate (MakeDay y m 0) 0 - tza + tza)
    with (MakeDate (MakeDay y m 0) 0) by lia.
  rewrite (MakeDay_day0 y m Hm).
  assert (Hc : calendar_day (mkDate y m (DaysInMonth y m))).
  { split; cbn [cd_year cd_month cd_day]; [lia|].
    unfold DaysInMonth. destruct (DaysInYear y =? 366); month_cases m; lia. }
  assert (Ht : 0 <= 0 < msPerDay) by (unfold msPerDay; lia).
  apply (date_fields y m (DaysInMonth y m) 0 Hc Ht).
Qed.

Lemma monthDay_key tza y m events day :
  100 <= y -> calendar_day (mkDate y m day) ->
  fst (monthDay tza y (m - 1) events day) = mkDate y m day.
Proof.
  intros Hy Hc. unfold monthDay.
  rewrite !(DateUTC_full_year y (m - 1) day 0 0 0 Hy).
  change (MakeTime 0 0 0 0) with 0.
  assert (Ht : 0 <= 0 < msPerDay) by (unfold msPerDay; lia).
  destruct (date_fields y m day 0 Hc Ht) as (HY & HM & HD & _).
  assert (Hstr : dateStrOf (MakeDate (MakeDay y (m - 1) day) 0)
                 = mkDate y m day).
  { unfold dateStrOf. rewrite HY, HM, HD. f_equal. lia. }
  rewrite Hstr.
  destruct ((getDay tza (MakeDate (MakeDay y (m - 1) day) 0) =? 0)
            || (getDay tza (MakeDate (MakeDay y (m - 1) day) 0) =? 6));
    reflexivity.
Qed.

(** X17. The month request of a year and a month answers with one entry for
    each day of that month, keyed by its date and in the order of the days,
    whatever the calendar holds and whatever the zone of the server. *)
Theorem month_one_entry_per_day tza y m calendar :
  100 <= y <= 9999 -> 1 <= m <= 12 ->
  exists entries,
    runApi calendar (monthAvailability tza (Some y) (Some m)) = Json entries
    /\ map fst entries
       = map (fun d => mkDate y m (Z.of_nat d))
           (seq 1 (Z.to_nat (DaysInMonth y m))).
Proof.
  intros Hy Hm. unfold monthAvailability. cbn [runApi].
  replace (m - 1 + 1) with m by lia.
  rewrite (daysInMonth_computed tza y m) by lia.
  eexists. split; [reflexivity|].
  rewrite map_map. apply map_ext_in. intros d Hd.
  apply in_seq in Hd. apply monthDay_key; [lia|].
  split; cbn [cd_year cd_month cd_day]; lia.
Qed.

Lemma month_one_entry_per_day_witness :
  100 <= 2024 <= 9999
  /\ exists entries,
       runApi (fun _ _ => []) (monthAvailability (-18000000) (Some 2024) (Some 2))
       = Json entries
       /\ map fst entries
          = map (fun d => mkDate 2024 2 (Z.of_nat d))
              (seq 1 (Z.to_nat (DaysInMonth 2024 2))).
Proof.
  assert (Hy : 100 <= 2024 <= 9999) by lia.
  assert (Hm : 1 <= 2 <= 12) by lia.
  split; [exact Hy|].
  exact (month_one_entry_per_day (-18000000) 2024 2 (fun _ _ => []) Hy Hm).
Defined.

Lemma filter_absorb {A} (p q h : A -> bool) (l : list A) :
  (forall x, p x = true -> h x = true) ->
  filter p (filter q (filter h l)) = filter p (filter q l).
Proof.
  intros H. induction l as [|x l IH]; [reflexivity|].
  cbn [filter]. destruct (h x) eqn:Eh; cbn [filter].
  - destruct (q x); cbn [filter]; rewrite IH; reflexivity.
  - destruct (q x); cbn [filter]; [|exact IH].
    destruct (p x) eqn:Ep; [|exact IH].
    rewrite (H x Ep) in Eh. discriminate.
Qed.

(** X18. The month request never sees an all-day event: events that lack a
    start or an end instant can be struck from the answers of the calendar
    without changing the response. *)
Theorem month_ignores_untimed_events tza year month calendar :
  runApi (fun timeMin timeMax =>
            filter hasBothInstants (calendar timeMin timeMax))
    (monthAvailability tza year month)
  = runApi calendar (monthAvailability tza year month).
Proof.
  unfold monthAvailability.
  destruct year as [y|], month as [m|]; try reflexivity.
  cbn [runApi]. f_equal. apply map_ext. intros d.
  unfold monthDay.
  destruct ((getDay tza (DateUTC y (m - 1) (Z.of_nat d) 0 0 0) =? 0)
            || (getDay tza (DateUTC y (m - 1) (Z.of_nat d) 0 0 0) =? 6));
    [reflexivity|].
  rewrite filter_absorb; [reflexivity|].
  intros ev. unfold hasBothInstants.
  destruct (start_dateTime ev), (end_dateTime ev);
    try discriminate; reflexivity.
Qed.

(* ================================================================== *)
(** * Further properties of the booking *)
(* ================================================================== *)


(* ================================================================== *)
(** * The range request *)
(* ================================================================== *)

(** The fields of an instant give back its day number. *)
Lemma fields_to_day t :
  MakeDay (YearFromTime t) (MonthFromTime t) (DateFromTime t) = Day t.
Proof.
  unfold DateFromTime, MonthFromTime, InLeapYear, DayWithinYear, YearFromTime.
  set (d := Day t). clearbody d.
  destruct (YearFromDay_spec d) as [Hlo Hhi].
  rewrite DayFromYear_succ in Hhi.
  set (y := YearFromDay d) in *. clearbody y.
  assert (Hmk : forall mn dt, 0 <= mn <= 11 ->
            MakeDay y mn dt
            = DayFromYear y
              + DaysBeforeMonth (if DaysInYear y =? 366 then 1 else 0) mn
              + dt - 1).
  { intros mn dt Hmn. unfold MakeDay.
    replace (mn / 12) with 0 by (Z.to_euclidean_division_equations; lia).
    replace (mn mod 12) with mn by (Z.to_euclidean_division_equations; lia).
    rewrite Z.add_0_r. reflexivity. }
  destruct (DaysInYear_cases y) as [L|L]; rewrite L in *;
    [change (365 =? 366) with false in * | change (366 =? 366) with true in *];
    cbv beta iota in *;
    repeat match goal with
           | |- context [?a <? ?b] => destruct (Z.ltb_spec a b)
           end;
    rewrite Hmk by lia; cbv beta iota delta [DaysBeforeMonth]; lia.
Qed.

(** [setDate(getDate() + 1)] moves an instant one day forward. *)
Lemma setDate_next tza t :
  setDate tza t (getDate tza t + 1) = t + msPerDay.
Proof.
  unfold setDate, getDate, UTC, LocalTime.
  set (l := t + tza).
  assert (E : MakeDay (YearFromTime l) (MonthFromTime l) (DateFromTime l + 1)
              = Day l + 1)
    by (rewrite <- (fields_to_day l); unfold MakeDay; lia).
  rewrite E.
  pose proof (MakeDate_Day_TimeWithinDay l) as H.
  unfold MakeDate in *. unfold l in *. lia.
Qed.

Lemma dayList_empty s e : e < s -> dayList s e = [].
Proof.
  intros H. unfold dayList.
  assert (Hq : (e - s) / msPerDay + 1 <= 0).
  { unfold msPerDay. Z.to_euclidean_division_equations. lia. }
  destruct (Z.to_nat ((e - s) / msPerDay + 1)) eqn:E; [reflexivity|lia].
Qed.

Lemma dayList_cons s e :
  s <= e -> dayList s e = s :: dayList (s + msPerDay) e.
Proof.
  intros H. unfold dayList.
  replace ((e - s) / msPerDay + 1)
    with (((e - (s + msPerDay)) / msPerDay + 1) + 1)
    by (unfold msPerDay; Z.to_euclidean_division_equations; lia).
  assert (Hq : 0 <= (e - (s + msPerDay)) / msPerDay + 1)
    by (unfold msPerDay; Z.to_euclidean_division_equations; lia).
  rewrite Z2Nat.inj_add by lia.
  replace (Z.to_nat 1) with 1%nat by reflexivity.
  rewrite Nat.add_comm. cbn [Nat.add seq map]. f_equal.
  - cbn. lia.
  - rewrite <- seq_shift, map_map. apply map_ext. intros i. lia.
Qed.

(** With fuel for every turn, the loop yields the days of the range. *)
Lemma daysLoop_dayList tza f : forall s e,
  e - s < Z.of_nat f * msPerDay -> daysLoop tza f s e = dayList s e.
Proof.
  induction f as [|f IH]; intros s e Hf.
  - cbn. symmetry. apply dayList_empty. lia.
  - cbn [daysLoop]. rewrite setDate_next.
    destruct (Z.leb_spec s e) as [Hle|Hgt].
    + rewrite IH by (unfold msPerDay in *; lia).
      symmetry. apply dayList_cons, Hle.
    + symmetry. apply dayList_empty, Hgt.
Qed.

Lemma daysFuel_enough s e : e - s < Z.of_nat (daysFuel s e) * msPerDay.
Proof.
  unfold daysFuel.
  destruct (Z_lt_le_dec (e - s) 0) as [Hneg|Hpos].
  - unfold msPerDay. lia.
  - rewrite Z2Nat.id
      by (unfold msPerDay; Z.to_euclidean_division_equations; lia).
    unfold msPerDay. Z.to_euclidean_division_equations. lia.
Qed.

(** The loop has left by the time the fuel of [rangeDays] is used up. *)
Lemma daysLoop_more_fuel tza s e f :
  (daysFuel s e <= f)%nat -> daysLoop tza f s e = rangeDays tza s e.
Proof.
  intros Hf. unfold rangeDays.
  pose proof (daysFuel_enough s e).
  rewrite !daysLoop_dayList; [reflexivity|lia|].
  assert (Z.of_nat (daysFuel s e) <= Z.of_nat f) by lia.
  unfold msPerDay in *. lia.
Qed.

Lemma rangeDays_dayList tza s e : rangeDays tza s e = dayList s e.
Proof. apply daysLoop_dayList, daysFuel_enough. Qed.

(** The loop over the days appends one entry per day to what is written
    already; the entries are sound, one listing is made for each day that is
    not a weekend, and nothing is inserted. *)
Lemma rangeLoop_run tza calendar days : forall acc,
  exists new,
    runApi calendar (rangeLoop tza days acc) = Json (acc ++ new)
    /\ map fst new = map dateStrOf days
    /\ Forall (fun entry => soundEntry (snd entry)) new
    /\ map (fun entry => isWeekend (snd entry)) new
       = map (localWeekend tza) days
    /\ List.length (listings calendar (rangeLoop tza days acc))
       = List.length (filter (fun day => negb (localWeekend tza day)) days)
    /\ inserted calendar (rangeLoop tza days acc) = [].
Proof.
  induction days as [|day days IH]; intros acc.
  - exists []. cbn. rewrite app_nil_r. repeat split; constructor.
  - cbn [rangeLoop filter map]. cbv zeta.
    change ((getDay tza day =? 0) || (getDay tza day =? 6))
      with (localWeekend tza day).
    destruct (localWeekend tza day) eqn:Ew; cbn [negb].
    + destruct (IH (acc ++ [(dateStrOf day, mkRangeEntry [] [] true)]))
        as (new & Hr & Hk & Hs & Hw & Hl & Hi).
      exists ((dateStrOf day, mkRangeEntry [] [] true) :: new).
      rewrite Hr, <- app_assoc. cbn [app map fst snd isWeekend].
      rewrite Hk, Hw, Hl, Hi.
      repeat split; try reflexivity.
      constructor; [|exact Hs].
      cbn [snd]. unfold soundEntry. cbn.
      split; [right; auto|]. split; [intros x []|lia].
    + cbn [runApi listings inserted List.length].
      match goal with
      | |- context [rangeLoop tza days (acc ++ [?e])] =>
          destruct (IH (acc ++ [e])) as (new & Hr & Hk & Hs & Hw & Hl & Hi);
          exists (e :: new)
      end.
      rewrite Hr, <- app_assoc. cbn [app map fst snd isWeekend].
      rewrite Hk, Hw, Hl, Hi.
      repeat split; try reflexivity.
      constructor; [|exact Hs].
      cbn [snd]. unfold soundEntry. cbn [isWeekend adjacent all].
      split; [left; reflexivity|]. split.
      * intros r. rewrite calculateAdjacentSlots_bookable,
          calculateAllSlots_free, !in_map_iff.
        intros (sl & <- & Hsl). exists sl. split; [reflexivity|].
        apply filter_In in Hsl. apply filter_In.
        destruct Hsl as [Hin Hb]. split; [exact Hin|].
        unfold bookable in Hb. apply andb_true_iff in Hb. tauto.
      * rewrite calculateAllSlots_free.
        eapply Nat.le_trans; [apply tiling_filter_length|].
        rewrite DateUTC_hours.
        replace (17 + (if isEasternTimeDST (dateStrOf day) then 4 else 5)
                 - (9 + (if isEasternTimeDST (dateStrOf day) then 4 else 5)))
          with 8 by lia.
        reflexivity.
Qed.

(** X20. A range from a first day to a last day answers with one entry per
    day, the two ends included, keyed by the dates of the days in order,
    whatever the calendar holds and whatever the zone of the server. *)
Theorem range_one_entry_per_day tza s e calendar :
  s <= e ->
  exists entries,
    runApi calendar (dateRangeAvailability tza (Some s) (Some e))
    = Json entries
    /\ map fst entries
       = map (fun i => dateStrOf (s + Z.of_nat i * msPerDay))
           (seq 0 (Z.to_nat ((e - s) / msPerDay + 1))).
Proof.
  intros H. unfold dateRangeAvailability.
  destruct (Z.gtb_spec s e) as [Hgt|_]; [lia|].
  rewrite rangeDays_dayList.
  destruct (rangeLoop_run tza calendar (dayList s e) [])
    as (new & Hr & Hk & _).
  exists new. split; [exact Hr|].
  rewrite Hk. unfold dayList. rewrite map_map. reflexivity.
Qed.

Lemma range_one_entry_per_day_witness :
  1717200000000 <= 1717372800000
  /\ exists entries,
       runApi (fun _ _ => [])
         (dateRangeAvailability 0 (Some 1717200000000) (Some 1717372800000))
       = Json entries
       /\ map fst entries
          = map (fun i => dateStrOf (1717200000000 + Z.of_nat i * msPerDay))
              (seq 0 (Z.to_nat ((1717372800000 - 1717200000000) / msPerDay
                                + 1))).
Proof.
  assert (H : 1717200000000 <= 1717372800000) by (vm_compute; discriminate).
  split; [exact H|].
  exact (range_one_entry_per_day 0 1717200000000 1717372800000
           (fun _ _ => []) H).
Defined.

(** X21. Whatever the range and the calendar, the range request either
    refuses a range whose start is after its end with status 400, or answers
    with entries that are all sound: a weekend entry has no slots, every
    adjacent slot of a day is among its free slots, and a day has at most 16
    free slots. It inserts nothing. *)
Theorem range_entries_sound tza s e calendar :
  match runApi calendar (dateRangeAvailability tza (Some s) (Some e)) with
  | Json entries => s <= e /\ Forall (fun entry => soundEntry (snd entry)) entries
  | Status code _ => code = 400 /\ e < s
  end
  /\ inserted calendar (dateRangeAvailability tza (Some s) (Some e)) = [].
Proof.
  unfold dateRangeAvailability.
  destruct (Z.gtb_spec s e) as [Hgt|Hle].
  - cbn. repeat split; lia.
  - destruct (rangeLoop_run tza calendar (rangeDays tza s e) [])
      as (new & Hr & _ & Hs & _ & _ & Hi).
    rewrite Hr, Hi. cbn [app]. repeat split; [lia|exact Hs].
Qed.

(** X22. The range request asks the calendar once for each day of the range
    that is not a Saturday or Sunday on the server's clock, and never for a
    weekend day or for a reversed range; the entries flagged [isWeekend] are
    those of the weekend days. *)
Theorem range_listings_skip_weekends tza s e calendar :
  List.length (listings calendar
                 (dateRangeAvailability tza (Some s) (Some e)))
  = List.length (filter (fun day => negb (localWeekend tza day)) (dayList s e))
  /\ match runApi calendar (dateRangeAvailability tza (Some s) (Some e)) with
     | Json entries =>
         map (fun entry => isWeekend (snd entry)) entries
         = map (localWeekend tza) (dayList s e)
     | Status _ _ => dayList s e = []
     end.
Proof.
  unfold dateRangeAvailability.
  destruct (Z.gtb_spec s e) as [Hgt|Hle].
  - rewrite (dayList_empty s e) by lia. cbn. split; reflexivity.
  - rewrite rangeDays_dayList.
    destruct (rangeLoop_run tza calendar (dayList s e) [])
      as (new & Hr & _ & _ & Hw & Hl & _).
    rewrite Hr, Hl. cbn [app]. split; [reflexivity|exact Hw].
Qed.

(* ================================================================== *)
(** * Instances *)
(* ================================================================== *)

Lemma weekend_day_request_witness :
  valid_date (mkDate 2024 6 2)
  /\ availableSlots (-14400000) (Some (mkDate 2024 6 2)) = Respond (Json []).
Proof.
  assert (Hv : valid_date (mkDate 2024 6 2)) by concrete_date.
  assert (Hw : weekday (mkDate 2024 6 2) = 0 \/ weekday (mkDate 2024 6 2) = 6)
    by (left; vm_compute; reflexivity).
  split; [exact Hv|].
  exact (weekend_day_request (-14400000) (mkDate 2024 6 2) Hv Hw).
Defined.

Lemma weekend_month_entry_witness :
  let meeting := mkEvent "confirmed" None None (Some 1717254000000) None
                   (Some 1717257600000) false in
  0 <= 3600000 < msPerDay
  /\ monthDay 3600000 2024 (6 - 1) [meeting] 1 = (mkDate 2024 6 1, false).
Proof.
  intros meeting.
  assert (Hy : 100 <= 2024) by lia.
  assert (Hc : calendar_day (mkDate 2024 6 1)) by concrete_date.
  assert (Htz : 0 <= 3600000 < msPerDay) by (unfold msPerDay; lia).
  assert (Hw : weekday (mkDate 2024 6 1) = 0 \/ weekday (mkDate 2024 6 1) = 6)
    by (right; vm_compute; reflexivity).
  split; [exact Htz|].
  exact (weekend_month_entry 3600000 2024 6 1 [meeting] Hy Hc Htz Hw).
Defined.

Lemma adjacency_whole_minutes_witness :
  let ev := mkEvent "confirmed" None None (Some 1705330500000) None
              (Some 1705333800000) false in
  let slot := mkSlot 1705334400000 1705336200000 false false in
  (1705333800000 + 0) mod msPerMinute = 0
  /\ map isAdjacent (markSlots 0 ev [slot]) = [true].
Proof.
  intros ev slot.
  assert (Ht : timed ev 1705330500000 1705333800000) by (split; reflexivity).
  assert (Hm : (1705333800000 + 0) mod msPerMinute = 0) by reflexivity.
  split; [exact Hm|].
  refine (proj2 (adjacency_whole_minutes 0 ev 1705330500000 1705333800000
                   slot Ht eq_refl eq_refl eq_refl Hm) _).
  right. vm_compute. reflexivity.
Defined.
